(** * Intersection controller (ESP32 sketch [src/main.cpp])

    A shallow embedding of the traffic-light sketch: the global variables
    and the output pins form a [Machine], every [void f()] of the sketch is
    a command [Machine -> Machine * Trace], and the push buttons are an
    environment giving, for the k-th call of [readButtons], the level that
    each [digitalRead] of that call returns. *)

From Stdlib Require Import ZArith List Ascii String Bool Lia DecimalString.
Import ListNotations.
Open Scope string_scope.
Open Scope list_scope.
Open Scope Z_scope.

(** ** Machine integers *)

(** [int] is 32 bits wide on the ESP32; arithmetic is written with its
    wrap-around. *)
Definition INT_MIN : Z := -2147483648.
Definition INT_MAX : Z := 2147483647.

Definition wrap_int (z : Z) : Z := (z + 2147483648) mod 4294967296 - 2147483648.
Definition int_add (a b : Z) : Z := wrap_int (a + b).
Definition int_sub (a b : Z) : Z := wrap_int (a - b).

(** ** Pins, constants and the phase enumeration *)

Definition HIGH : bool := true.
Definition LOW : bool := false.

Definition PIN_NS_RED : Z := 2.
Definition PIN_NS_YELLOW : Z := 4.
Definition PIN_NS_GREEN : Z := 5.

Definition PIN_EW_RED : Z := 18.
Definition PIN_EW_YELLOW : Z := 19.
Definition PIN_EW_GREEN : Z := 21.

Definition PIN_PED_RED : Z := 22.
Definition PIN_PED_GREEN : Z := 23.

Definition PIN_BTN_NS_TRAFFIC : Z := 12.
Definition PIN_BTN_EW_TRAFFIC : Z := 13.
Definition PIN_BTN_PED_REQUEST : Z := 14.

Definition YELLOW_TIME_SEC : Z := 3.
Definition PED_TIME_SEC : Z := 8.
Definition BASE_GREEN_SEC : Z := 10.

Inductive Phase : Type :=
| PHASE_NS_GREEN
| PHASE_NS_YELLOW
| PHASE_EW_GREEN
| PHASE_EW_YELLOW
| PHASE_PED_GREEN.

Definition Phase_eqb (p q : Phase) : bool :=
  match p, q with
  | PHASE_NS_GREEN, PHASE_NS_GREEN
  | PHASE_NS_YELLOW, PHASE_NS_YELLOW
  | PHASE_EW_GREEN, PHASE_EW_GREEN
  | PHASE_EW_YELLOW, PHASE_EW_YELLOW
  | PHASE_PED_GREEN, PHASE_PED_GREEN => true
  | _, _ => false
  end.

(** ** The character display *)

(** Two rows of text and a cursor.  [print] writes at the cursor and moves
    it right, replacing what was there; the 16-column window and the
    address wrap of the controller chip are left out. *)
Record Lcd : Type := mkLcd {
  row0 : string;
  row1 : string;
  cursorCol : nat;
  cursorRow : nat
}.

Fixpoint place (s old : string) : string :=
  match s with
  | EmptyString => old
  | String c s' =>
      String c (place s' (match old with
                          | EmptyString => EmptyString
                          | String _ r => r
                          end))
  end.

Fixpoint overwrite (col : nat) (s old : string) : string :=
  match col with
  | O => place s old
  | S k =>
      match old with
      | EmptyString => String " "%char (overwrite k s EmptyString)
      | String a r => String a (overwrite k s r)
      end
  end.

Definition lcd_clear (d : Lcd) : Lcd := mkLcd EmptyString EmptyString 0 0.

Definition lcd_setCursor (col row : nat) (d : Lcd) : Lcd :=
  mkLcd (row0 d) (row1 d) col row.

Definition lcd_print (s : string) (d : Lcd) : Lcd :=
  match cursorRow d with
  | O => mkLcd (overwrite (cursorCol d) s (row0 d)) (row1 d)
               (cursorCol d + String.length s) 0
  | S _ => mkLcd (row0 d) (overwrite (cursorCol d) s (row1 d))
                 (cursorCol d + String.length s) (cursorRow d)
  end.

(** [lcd.print(int)] prints the decimal numeral, with a minus sign for a
    negative value. *)
Definition dec (z : Z) : string := NilZero.string_of_int (Z.to_int z).

Definition lcd_print_int (z : Z) (d : Lcd) : Lcd := lcd_print (dec z) d.

(** ** The machine state *)

(** The globals of the sketch, the output latch of every pin, the display,
    the number of [readButtons] calls made so far and the time spent in
    [delay]. *)
Record Machine : Type := mkMachine {
  currentPhase : Phase;
  trafficCountNS : Z;
  trafficCountEW : Z;
  pedRequest : bool;
  lastNsBtnState : bool;
  lastEwBtnState : bool;
  lastPedBtnState : bool;
  gpio : Z -> bool;
  lcd : Lcd;
  polls : nat;
  elapsedMs : Z
}.

Definition set_currentPhase (p : Phase) (m : Machine) : Machine :=
  mkMachine p (trafficCountNS m) (trafficCountEW m) (pedRequest m)
            (lastNsBtnState m) (lastEwBtnState m) (lastPedBtnState m)
            (gpio m) (lcd m) (polls m) (elapsedMs m).

Definition set_trafficCountNS (c : Z) (m : Machine) : Machine :=
  mkMachine (currentPhase m) c (trafficCountEW m) (pedRequest m)
            (lastNsBtnState m) (lastEwBtnState m) (lastPedBtnState m)
            (gpio m) (lcd m) (polls m) (elapsedMs m).

Definition set_trafficCountEW (c : Z) (m : Machine) : Machine :=
  mkMachine (currentPhase m) (trafficCountNS m) c (pedRequest m)
            (lastNsBtnState m) (lastEwBtnState m) (lastPedBtnState m)
            (gpio m) (lcd m) (polls m) (elapsedMs m).

Definition set_pedRequest (b : bool) (m : Machine) : Machine :=
  mkMachine (currentPhase m) (trafficCountNS m) (trafficCountEW m) b
            (lastNsBtnState m) (lastEwBtnState m) (lastPedBtnState m)
            (gpio m) (lcd m) (polls m) (elapsedMs m).

Definition set_lastNsBtnState (b : bool) (m : Machine) : Machine :=
  mkMachine (currentPhase m) (trafficCountNS m) (trafficCountEW m)
            (pedRequest m) b (lastEwBtnState m) (lastPedBtnState m)
            (gpio m) (lcd m) (polls m) (elapsedMs m).

Definition set_lastEwBtnState (b : bool) (m : Machine) : Machine :=
  mkMachine (currentPhase m) (trafficCountNS m) (trafficCountEW m)
            (pedRequest m) (lastNsBtnState m) b (lastPedBtnState m)
            (gpio m) (lcd m) (polls m) (elapsedMs m).

Definition set_lastPedBtnState (b : bool) (m : Machine) : Machine :=
  mkMachine (currentPhase m) (trafficCountNS m) (trafficCountEW m)
            (pedRequest m) (lastNsBtnState m) (lastEwBtnState m) b
            (gpio m) (lcd m) (polls m) (elapsedMs m).

Definition set_gpio (g : Z -> bool) (m : Machine) : Machine :=
  mkMachine (currentPhase m) (trafficCountNS m) (trafficCountEW m)
            (pedRequest m) (lastNsBtnState m) (lastEwBtnState m)
            (lastPedBtnState m) g (lcd m) (polls m) (elapsedMs m).

Definition set_lcd (d : Lcd) (m : Machine) : Machine :=
  mkMachine (currentPhase m) (trafficCountNS m) (trafficCountEW m)
            (pedRequest m) (lastNsBtnState m) (lastEwBtnState m)
            (lastPedBtnState m) (gpio m) d (polls m) (elapsedMs m).

Definition set_polls (n : nat) (m : Machine) : Machine :=
  mkMachine (currentPhase m) (trafficCountNS m) (trafficCountEW m)
            (pedRequest m) (lastNsBtnState m) (lastEwBtnState m)
            (lastPedBtnState m) (gpio m) (lcd m) n (elapsedMs m).

Definition set_elapsedMs (t : Z) (m : Machine) : Machine :=
  mkMachine (currentPhase m) (trafficCountNS m) (trafficCountEW m)
            (pedRequest m) (lastNsBtnState m) (lastEwBtnState m)
            (lastPedBtnState m) (gpio m) (lcd m) (polls m) t.

(** The state at power-on: the initialisers of the globals, every output
    low, a blank display. *)
Definition power_on : Machine :=
  mkMachine PHASE_NS_GREEN 0 0 false HIGH HIGH HIGH
            (fun _ => LOW) (mkLcd EmptyString EmptyString 0 0) 0 0.

(** ** Commands and their traces *)

(** What an observer of the controller sees, each with the machine state at
    that instant. *)
Inductive Event : Type :=
| EvPhase (m : Machine)
    (* [currentPhase] has just been assigned *)
| EvWrite (pin : Z) (level : bool) (m : Machine)
    (* a [digitalWrite] has just been done *)
| EvRefresh (remaining : Z) (m : Machine)
    (* the per-second display of a countdown has just been written *)
| EvPoll (nsBtn ewBtn pedBtn : bool) (before after : Machine).
    (* one call of [readButtons], with the three levels it read *)

Definition Trace : Type := list Event.

Definition Cmd : Type := Machine -> Machine * Trace.

Definition exec (c : Cmd) (m : Machine) : Machine := fst (c m).
Definition trace (c : Cmd) (m : Machine) : Trace := snd (c m).

Definition skip : Cmd := fun m => (m, []).

Definition seq (c1 c2 : Cmd) : Cmd :=
  fun m =>
    let (m1, t1) := c1 m in
    let (m2, t2) := c2 m1 in
    (m2, t1 ++ t2).

Notation "c1 ;; c2" := (seq c1 c2) (at level 61, right associativity).

Definition modify (f : Machine -> Machine) : Cmd := fun m => (f m, []).

Definition emit (e : Machine -> Event) : Cmd := fun m => (m, [e m]).

(** Run [k] on a value read from the state. *)
Definition read {A : Type} (f : Machine -> A) (k : A -> Cmd) : Cmd :=
  fun m => k (f m) m.

Definition ifte (b : Machine -> bool) (c1 c2 : Cmd) : Cmd :=
  fun m => if b m then c1 m else c2 m.

Definition when (b : Machine -> bool) (c : Cmd) : Cmd := ifte b c skip.

(** [for (int i = 0; i < n; i++) c] *)
Fixpoint repeat_n (n : nat) (c : Cmd) : Cmd :=
  match n with
  | O => skip
  | S k => c ;; repeat_n k c
  end.

(** [for (int remaining = n; remaining > 0; remaining--) body(remaining)] *)
Fixpoint for_down (n : nat) (body : Z -> Cmd) : Cmd :=
  match n with
  | O => skip
  | S k => body (Z.of_nat (S k)) ;; for_down k body
  end.

(** ** Primitives of the board *)

Definition delay (ms : Z) : Cmd :=
  modify (fun m => set_elapsedMs (elapsedMs m + ms) m).

Definition digitalWrite (pin : Z) (level : bool) : Cmd :=
  modify (fun m => set_gpio (fun q => if q =? pin then level else gpio m q) m) ;;
  emit (EvWrite pin level).

Definition assign_currentPhase (p : Phase) : Cmd :=
  modify (set_currentPhase p) ;; emit EvPhase.

Definition lcd_do (f : Lcd -> Lcd) : Cmd :=
  modify (fun m => set_lcd (f (lcd m)) m).

Definition lcdShowTwoLines (line1 line2 : string) : Cmd :=
  lcd_do lcd_clear ;;
  lcd_do (lcd_setCursor 0 0) ;;
  lcd_do (lcd_print line1) ;;
  lcd_do (lcd_setCursor 0 1) ;;
  lcd_do (lcd_print line2).

(** ** Red-status helpers *)

Definition isNsRed (m : Machine) : bool :=
  Phase_eqb (currentPhase m) PHASE_EW_GREEN
  || Phase_eqb (currentPhase m) PHASE_EW_YELLOW
  || Phase_eqb (currentPhase m) PHASE_PED_GREEN.

Definition isEwRed (m : Machine) : bool :=
  Phase_eqb (currentPhase m) PHASE_NS_GREEN
  || Phase_eqb (currentPhase m) PHASE_NS_YELLOW
  || Phase_eqb (currentPhase m) PHASE_PED_GREEN.

(** ** LED state helpers *)

Definition setAllVehicleRed : Cmd :=
  digitalWrite PIN_NS_RED HIGH ;;
  digitalWrite PIN_NS_YELLOW LOW ;;
  digitalWrite PIN_NS_GREEN LOW ;;
  digitalWrite PIN_EW_RED HIGH ;;
  digitalWrite PIN_EW_YELLOW LOW ;;
  digitalWrite PIN_EW_GREEN LOW.

Definition setNsGreenState : Cmd :=
  setAllVehicleRed ;;
  digitalWrite PIN_NS_RED LOW ;;
  digitalWrite PIN_NS_GREEN HIGH.

Definition setNsYellowState : Cmd :=
  setAllVehicleRed ;;
  digitalWrite PIN_NS_RED LOW ;;
  digitalWrite PIN_NS_YELLOW HIGH.

Definition setEwGreenState : Cmd :=
  setAllVehicleRed ;;
  digitalWrite PIN_EW_RED LOW ;;
  digitalWrite PIN_EW_GREEN HIGH.

Definition setEwYellowState : Cmd :=
  setAllVehicleRed ;;
  digitalWrite PIN_EW_RED LOW ;;
  digitalWrite PIN_EW_YELLOW HIGH.

Definition setPedestrianGreenState : Cmd :=
  setAllVehicleRed ;;
  digitalWrite PIN_PED_RED LOW ;;
  digitalWrite PIN_PED_GREEN HIGH.

(** ** Green time computation *)

Definition computeNsGreenSeconds (m : Machine) : Z :=
  let extra :=
    if trafficCountNS m >=? 15 then 30
    else if trafficCountNS m >=? 10 then 20
    else if trafficCountNS m >=? 5 then 10
    else 0 in
  int_add BASE_GREEN_SEC extra.

Definition computeEwGreenSeconds (m : Machine) : Z :=
  let extra :=
    if trafficCountEW m >=? 15 then 30
    else if trafficCountEW m >=? 10 then 20
    else if trafficCountEW m >=? 5 then 10
    else 0 in
  int_add BASE_GREEN_SEC extra.

(** The split shown on line 1 of a green phase:
    [extraSecs = totalSecs - baseSecs; if (extraSecs < 0) extraSecs = 0;] *)
Definition extraSecsOf (totalSecs baseSecs : Z) : Z :=
  let extraSecs := int_sub totalSecs baseSecs in
  if extraSecs <? 0 then 0 else extraSecs.

(** ** The sketch *)

Inductive PinMode : Type := OUTPUT | INPUT_PULLUP.

(** [pinMode] only selects the direction of a pin; [Wire.begin],
    [lcd.init] and [lcd.backlight] likewise change nothing that is
    modelled. *)
Definition pinMode (pin : Z) (mode : PinMode) : Cmd := skip.

Section Controller.

(** [env k pin] is the level that [digitalRead(pin)] returns in the k-th
    call of [readButtons] (a released button reads [HIGH]: the inputs are
    pulled up). *)
Variable env : nat -> Z -> bool.

Definition digitalRead (pin : Z) (m : Machine) : bool := env (polls m) pin.

Definition just_pressed (btn last : bool) : bool :=
  Bool.eqb btn LOW && Bool.eqb last HIGH.

Definition readNsButton : Cmd :=
  read (digitalRead PIN_BTN_NS_TRAFFIC) (fun nsBtn =>
    when (fun m => just_pressed nsBtn (lastNsBtnState m))
      (ifte isNsRed
         (modify (fun m => set_trafficCountNS (int_add (trafficCountNS m) 1) m) ;;
          lcd_do lcd_clear ;;
          lcd_do (lcd_setCursor 0 0) ;;
          lcd_do (lcd_print "NS RED: Count") ;;
          lcd_do (lcd_setCursor 0 1) ;;
          lcd_do (lcd_print "NS=") ;;
          read trafficCountNS (fun c => lcd_do (lcd_print_int c)))
         (lcdShowTwoLines "NS not RED" "No count") ;;
       delay 30) ;;
    modify (set_lastNsBtnState nsBtn)).

Definition readEwButton : Cmd :=
  read (digitalRead PIN_BTN_EW_TRAFFIC) (fun ewBtn =>
    when (fun m => just_pressed ewBtn (lastEwBtnState m))
      (ifte isEwRed
         (modify (fun m => set_trafficCountEW (int_add (trafficCountEW m) 1) m) ;;
          lcd_do lcd_clear ;;
          lcd_do (lcd_setCursor 0 0) ;;
          lcd_do (lcd_print "EW RED: Count") ;;
          lcd_do (lcd_setCursor 0 1) ;;
          lcd_do (lcd_print "EW=") ;;
          read trafficCountEW (fun c => lcd_do (lcd_print_int c)))
         (lcdShowTwoLines "EW not RED" "No count") ;;
       delay 30) ;;
    modify (set_lastEwBtnState ewBtn)).

Definition readPedButton : Cmd :=
  read (digitalRead PIN_BTN_PED_REQUEST) (fun pedBtn =>
    when (fun m => just_pressed pedBtn (lastPedBtnState m))
      (modify (set_pedRequest true) ;;
       lcdShowTwoLines "Pedestrian Req" "Stored" ;;
       delay 30) ;;
    modify (set_lastPedBtnState pedBtn)).

(** One call of [readButtons]: the three buttons in turn; the call is
    recorded with the levels read and the state before and after. *)
Definition readButtons : Cmd :=
  fun m =>
    let m' := exec (readNsButton ;; readEwButton ;; readPedButton) m in
    let m'' := set_polls (S (polls m')) m' in
    (m'', [EvPoll (digitalRead PIN_BTN_NS_TRAFFIC m)
                  (digitalRead PIN_BTN_EW_TRAFFIC m)
                  (digitalRead PIN_BTN_PED_REQUEST m) m m'']).

(** 1 second = 50 x (readButtons + 20 ms) *)
Definition waitOneSecondWithButtons : Cmd :=
  repeat_n 50 (readButtons ;; delay 20).

(** The display written at the top of each turn of the countdown loop of
    [phaseNsGreen]. *)
Definition nsGreenDisplay (baseSecs extraSecs remaining : Z) : Cmd :=
  lcd_do lcd_clear ;;
  lcd_do (lcd_setCursor 0 0) ;;
  lcd_do (lcd_print "NSG ") ;;
  lcd_do (lcd_print_int baseSecs) ;;
  lcd_do (lcd_print "+") ;;
  lcd_do (lcd_print_int extraSecs) ;;
  lcd_do (lcd_print "s") ;;
  lcd_do (lcd_setCursor 0 1) ;;
  lcd_do (lcd_print "T=") ;;
  lcd_do (lcd_print_int remaining) ;;
  lcd_do (lcd_print " EW=") ;;
  read trafficCountEW (fun c => lcd_do (lcd_print_int c)).

(** One turn of that loop: the display, then the 1-second tick. *)
Definition nsGreenSecond (baseSecs extraSecs remaining : Z) : Cmd :=
  nsGreenDisplay baseSecs extraSecs remaining ;;
  emit (EvRefresh remaining) ;;
  waitOneSecondWithButtons.

Definition phaseNsGreen : Cmd :=
  assign_currentPhase PHASE_NS_GREEN ;;
  read computeNsGreenSeconds (fun totalSecs =>
    let baseSecs := BASE_GREEN_SEC in
    let extraSecs := extraSecsOf totalSecs baseSecs in
    setNsGreenState ;;
    for_down (Z.to_nat totalSecs) (nsGreenSecond baseSecs extraSecs) ;;
    modify (set_trafficCountNS 0)).

Definition nsYellowDisplay (remaining : Z) : Cmd :=
  lcd_do lcd_clear ;;
  lcd_do (lcd_setCursor 0 0) ;;
  lcd_do (lcd_print "NSY T=") ;;
  lcd_do (lcd_print_int remaining) ;;
  lcd_do (lcd_print "s") ;;
  lcd_do (lcd_setCursor 0 1) ;;
  lcd_do (lcd_print "EW=") ;;
  read trafficCountEW (fun c => lcd_do (lcd_print_int c)).

Definition nsYellowSecond (remaining : Z) : Cmd :=
  nsYellowDisplay remaining ;;
  emit (EvRefresh remaining) ;;
  setNsYellowState ;;
  waitOneSecondWithButtons.

Definition phaseNsYellow : Cmd :=
  assign_currentPhase PHASE_NS_YELLOW ;;
  for_down (Z.to_nat YELLOW_TIME_SEC) nsYellowSecond.

Definition ewGreenDisplay (baseSecs extraSecs remaining : Z) : Cmd :=
  lcd_do lcd_clear ;;
  lcd_do (lcd_setCursor 0 0) ;;
  lcd_do (lcd_print "EWG ") ;;
  lcd_do (lcd_print_int baseSecs) ;;
  lcd_do (lcd_print "+") ;;
  lcd_do (lcd_print_int extraSecs) ;;
  lcd_do (lcd_print "s") ;;
  lcd_do (lcd_setCursor 0 1) ;;
  lcd_do (lcd_print "T=") ;;
  lcd_do (lcd_print_int remaining) ;;
  lcd_do (lcd_print " NS=") ;;
  read trafficCountNS (fun c => lcd_do (lcd_print_int c)).

Definition ewGreenSecond (baseSecs extraSecs remaining : Z) : Cmd :=
  ewGreenDisplay baseSecs extraSecs remaining ;;
  emit (EvRefresh remaining) ;;
  waitOneSecondWithButtons.

Definition phaseEwGreen : Cmd :=
  assign_currentPhase PHASE_EW_GREEN ;;
  read computeEwGreenSeconds (fun totalSecs =>
    let baseSecs := BASE_GREEN_SEC in
    let extraSecs := extraSecsOf totalSecs baseSecs in
    setEwGreenState ;;
    for_down (Z.to_nat totalSecs) (ewGreenSecond baseSecs extraSecs) ;;
    modify (set_trafficCountEW 0)).

Definition ewYellowDisplay (remaining : Z) : Cmd :=
  lcd_do lcd_clear ;;
  lcd_do (lcd_setCursor 0 0) ;;
  lcd_do (lcd_print "EWY T=") ;;
  lcd_do (lcd_print_int remaining) ;;
  lcd_do (lcd_print "s") ;;
  lcd_do (lcd_setCursor 0 1) ;;
  lcd_do (lcd_print "NS=") ;;
  read trafficCountNS (fun c => lcd_do (lcd_print_int c)).

Definition ewYellowSecond (remaining : Z) : Cmd :=
  ewYellowDisplay remaining ;;
  emit (EvRefresh remaining) ;;
  setEwYellowState ;;
  waitOneSecondWithButtons.

Definition phaseEwYellow : Cmd :=
  assign_currentPhase PHASE_EW_YELLOW ;;
  for_down (Z.to_nat YELLOW_TIME_SEC) ewYellowSecond.

Definition pedDisplay (remaining : Z) : Cmd :=
  lcd_do lcd_clear ;;
  lcd_do (lcd_setCursor 0 0) ;;
  lcd_do (lcd_print "PEDESTRIAN") ;;
  lcd_do (lcd_setCursor 0 1) ;;
  lcd_do (lcd_print "T=") ;;
  lcd_do (lcd_print_int remaining) ;;
  lcd_do (lcd_print " WALK").

Definition pedSecond (remaining : Z) : Cmd :=
  pedDisplay remaining ;;
  emit (EvRefresh remaining) ;;
  waitOneSecondWithButtons.

(** The pedestrian phase proper, run when the request is latched. *)
Definition pedestrianPhase : Cmd :=
  assign_currentPhase PHASE_PED_GREEN ;;
  setPedestrianGreenState ;;
  for_down (Z.to_nat PED_TIME_SEC) pedSecond ;;
  setAllVehicleRed ;;
  digitalWrite PIN_PED_RED HIGH ;;
  digitalWrite PIN_PED_GREEN LOW ;;
  lcdShowTwoLines "PEDESTRIAN" "STOP" ;;
  delay 500 ;;
  modify (set_pedRequest false).

(** [if (!pedRequest) return;] and then the phase. *)
Definition phasePedestrianIfRequested : Cmd :=
  ifte (fun m => negb (pedRequest m)) skip pedestrianPhase.

Definition setup : Cmd :=
  lcdShowTwoLines "Traffic System" "Starting..." ;;
  delay 1000 ;;
  pinMode PIN_NS_RED OUTPUT ;;
  pinMode PIN_NS_YELLOW OUTPUT ;;
  pinMode PIN_NS_GREEN OUTPUT ;;
  pinMode PIN_EW_RED OUTPUT ;;
  pinMode PIN_EW_YELLOW OUTPUT ;;
  pinMode PIN_EW_GREEN OUTPUT ;;
  pinMode PIN_PED_RED OUTPUT ;;
  pinMode PIN_PED_GREEN OUTPUT ;;
  pinMode PIN_BTN_NS_TRAFFIC INPUT_PULLUP ;;
  pinMode PIN_BTN_EW_TRAFFIC INPUT_PULLUP ;;
  pinMode PIN_BTN_PED_REQUEST INPUT_PULLUP ;;
  setAllVehicleRed ;;
  digitalWrite PIN_PED_RED HIGH ;;
  digitalWrite PIN_PED_GREEN LOW ;;
  lcdShowTwoLines "Traffic System" "Ready" ;;
  delay 1000.

(** The first and the second half of [loop]. *)
Definition nsHalf : Cmd :=
  phaseNsGreen ;; phaseNsYellow ;; phasePedestrianIfRequested.

Definition ewHalf : Cmd :=
  phaseEwGreen ;; phaseEwYellow ;; phasePedestrianIfRequested.

Definition loop : Cmd := nsHalf ;; ewHalf.

(** The Arduino runtime: [setup] once, then [loop] again and again; [sketch n]
    is the run up to the end of the n-th [loop]. *)
Definition sketch (n : nat) : Cmd := setup ;; repeat_n n loop.

End Controller.

(** ** Reading a trace *)

(** The states an event shows. *)
Definition snapshots (e : Event) : list Machine :=
  match e with
  | EvPhase m => [m]
  | EvWrite _ _ m => [m]
  | EvRefresh _ m => [m]
  | EvPoll _ _ _ b a => [b; a]
  end.

(** The countdown as displayed: phase and seconds remaining of every
    per-second refresh. *)
Fixpoint schedule (t : Trace) : list (Phase * Z) :=
  match t with
  | [] => []
  | EvRefresh r m :: t' => (currentPhase m, r) :: schedule t'
  | _ :: t' => schedule t'
  end.

(** The phases entered, in order. *)
Fixpoint phases_of (t : Trace) : list Phase :=
  match t with
  | [] => []
  | EvPhase m :: t' => currentPhase m :: phases_of t'
  | _ :: t' => phases_of t'
  end.



(** * Vocabulary of the properties *)

(** A property of every state an event shows. *)
Definition ev_all (P : Machine -> Prop) (e : Event) : Prop :=
  Forall P (snapshots e).

(** The two vehicle greens are not both lit. *)
Definition no_conflict (m : Machine) : Prop :=
  gpio m PIN_NS_GREEN && gpio m PIN_EW_GREEN = false.

(** Signal safety: no conflicting greens, and the pedestrian green lit only
    in the pedestrian phase. *)
Definition safe (m : Machine) : Prop :=
  no_conflict m /\
  (gpio m PIN_PED_GREEN = true -> currentPhase m = PHASE_PED_GREEN).

(** Between pedestrian phases the pedestrian green is dark. *)
Definition calm (m : Machine) : Prop :=
  no_conflict m /\ gpio m PIN_PED_GREEN = false.

(** Inside the pedestrian phase. *)
Definition walking (m : Machine) : Prop :=
  no_conflict m /\ currentPhase m = PHASE_PED_GREEN.

(** A property that looks only at the phase and the output pins. *)
Definition on_signals (P : Machine -> Prop) : Prop :=
  forall m m', currentPhase m' = currentPhase m -> gpio m' = gpio m ->
               P m -> P m'.

(** A press edge as [readButtons] detects it, read off a poll event. *)
Definition nsPress (e : Event) : bool :=
  match e with
  | EvPoll ns _ _ b _ => just_pressed ns (lastNsBtnState b)
  | _ => false
  end.

Definition ewPress (e : Event) : bool :=
  match e with
  | EvPoll _ ew _ b _ => just_pressed ew (lastEwBtnState b)
  | _ => false
  end.

Definition pedPress (e : Event) : bool :=
  match e with
  | EvPoll _ _ ped b _ => just_pressed ped (lastPedBtnState b)
  | _ => false
  end.

(** A press edge on a count button while its road is stopped. *)
Definition nsAccepted (e : Event) : bool :=
  match e with
  | EvPoll _ _ _ b _ => nsPress e && isNsRed b
  | _ => false
  end.

Definition ewAccepted (e : Event) : bool :=
  match e with
  | EvPoll _ _ _ b _ => ewPress e && isEwRed b
  | _ => false
  end.

(** How many events of a trace satisfy [f]. *)
Fixpoint tally (f : Event -> bool) (t : Trace) : Z :=
  match t with
  | [] => 0
  | e :: t' => Z.b2z (f e) + tally f t'
  end.

(** Press edges of all three buttons (each costs a 30 ms debounce). *)
Definition pressesIn (t : Trace) : Z :=
  tally nsPress t + tally ewPress t + tally pedPress t.

(** Some poll of the trace saw a pedestrian press edge. *)
Definition pedPressed (t : Trace) : bool := existsb pedPress t.

(** The request latch is set in some state the trace shows. *)
Definition latchSeen (t : Trace) : bool :=
  existsb (fun e => existsb pedRequest (snapshots e)) t.

(** What one poll does to the two counts. *)
Definition poll_ok (e : Event) : Prop :=
  match e with
  | EvPoll _ _ _ b a =>
      trafficCountNS a = trafficCountNS b + Z.b2z (nsAccepted e) /\
      trafficCountEW a = trafficCountEW b + Z.b2z (ewAccepted e)
  | _ => True
  end.

(** Both counts are non-negative and can take [k] more increments. *)
Definition in_range (k : Z) (m : Machine) : Prop :=
  0 <= trafficCountNS m /\ trafficCountNS m + k <= INT_MAX /\
  0 <= trafficCountEW m /\ trafficCountEW m + k <= INT_MAX.

(** [n; n-1; ...; 1] *)
Fixpoint down (n : nat) : list Z :=
  match n with
  | O => []
  | S k => Z.of_nat (S k) :: down k
  end.

(** [countdown p n] is [(p, n); ...; (p, 1)]. *)
Definition countdown (p : Phase) (n : nat) : list (Phase * Z) :=
  map (pair p) (down n).

(** The summary of a command that stays inside one phase: it shows the
    countdown values [shown], polls the buttons [k] times and spends [d]
    ms in fixed delays. *)
Record effect (c : Cmd) (shown : list Z) (k : nat) (d : Z) (m : Machine)
  : Prop := mkEffect {
  eff_phase : currentPhase (exec c m) = currentPhase m;
  eff_phases : phases_of (trace c m) = [];
  eff_schedule : schedule (trace c m) = map (pair (currentPhase m)) shown;
  eff_latch : pedRequest (exec c m) = pedRequest m || pedPressed (trace c m);
  eff_sticky : latchSeen (trace c m) = true -> pedRequest (exec c m) = true;
  eff_polls : polls (exec c m) = (polls m + k)%nat;
  eff_time :
    elapsedMs (exec c m) = elapsedMs m + d + 30 * pressesIn (trace c m);
  eff_bound :
    0 <= tally nsAccepted (trace c m) <= Z.of_nat k /\
    0 <= tally ewAccepted (trace c m) <= Z.of_nat k;
  eff_counts :
    in_range (Z.of_nat k) m ->
    trafficCountNS (exec c m) =
      trafficCountNS m + tally nsAccepted (trace c m) /\
    trafficCountEW (exec c m) =
      trafficCountEW m + tally ewAccepted (trace c m) /\
    Forall poll_ok (trace c m)
}.

(** The summary of a whole phase function: it enters phase [p], shows the
    countdown [shown], polls [k] times and spends [d] ms in fixed delays. *)
Record entered (c : Cmd) (p : Phase) (shown : list Z) (k : nat) (d : Z)
       (m : Machine) : Prop := mkEntered {
  ent_phase : currentPhase (exec c m) = p;
  ent_phases : phases_of (trace c m) = [p];
  ent_schedule : schedule (trace c m) = map (pair p) shown;
  ent_polls : polls (exec c m) = (polls m + k)%nat;
  ent_time :
    elapsedMs (exec c m) = elapsedMs m + d + 30 * pressesIn (trace c m);
  ent_bound :
    0 <= tally nsAccepted (trace c m) <= Z.of_nat k /\
    0 <= tally ewAccepted (trace c m) <= Z.of_nat k;
  ent_poll_ok : in_range (Z.of_nat k) m -> Forall poll_ok (trace c m)
}.

(** The request latch is only ever set by the command, by a press edge. *)
Record latching (c : Cmd) (m : Machine) : Prop := mkLatching {
  lat_latch : pedRequest (exec c m) = pedRequest m || pedPressed (trace c m);
  lat_sticky : latchSeen (trace c m) = true -> pedRequest (exec c m) = true
}.

(** The NS count moves only by the accepted NS presses. *)
Definition ns_tallied (c : Cmd) (k : nat) (m : Machine) : Prop :=
  in_range (Z.of_nat k) m ->
  trafficCountNS (exec c m) = trafficCountNS m + tally nsAccepted (trace c m).

(** The EW count moves only by the accepted EW presses. *)
Definition ew_tallied (c : Cmd) (k : nat) (m : Machine) : Prop :=
  in_range (Z.of_nat k) m ->
  trafficCountEW (exec c m) = trafficCountEW m + tally ewAccepted (trace c m).

(** Both counts are non-negative and at most [a] (NS) and [b] (EW). *)
Definition within (a b : Z) (m : Machine) : Prop :=
  0 <= trafficCountNS m <= a /\ 0 <= trafficCountEW m <= b.

(** What the controller does with the count of a road on a poll: on a press
    edge of its button the count goes up by one if the road is stopped and
    stays as it is if not; without a press edge it stays as it is. *)
Definition counted_iff_stopped (e : Event) : Prop :=
  match e with
  | EvPoll ns ew _ b a =>
      (if just_pressed ns (lastNsBtnState b)
       then (isNsRed b = true /\ trafficCountNS a = trafficCountNS b + 1) \/
            (isNsRed b = false /\ trafficCountNS a = trafficCountNS b)
       else trafficCountNS a = trafficCountNS b) /\
      (if just_pressed ew (lastEwBtnState b)
       then (isEwRed b = true /\ trafficCountEW a = trafficCountEW b + 1) \/
            (isEwRed b = false /\ trafficCountEW a = trafficCountEW b)
       else trafficCountEW a = trafficCountEW b)
  | _ => True
  end.

(** The display at every per-second refresh: phase, seconds remaining,
    line 1, line 2. *)
Fixpoint frames (t : Trace) : list (Phase * Z * string * string) :=
  match t with
  | [] => []
  | EvRefresh r m :: t' =>
      (currentPhase m, r, row0 (lcd m), row1 (lcd m)) :: frames t'
  | _ :: t' => frames t'
  end.

(** Line 2 of a vehicle phase in the form "T=<remaining> <OTHER>=<count>". *)
Definition line2_countdown_form (e : Event) : bool :=
  match e with
  | EvRefresh r m =>
      match currentPhase m with
      | PHASE_NS_GREEN | PHASE_NS_YELLOW =>
          String.eqb (row1 (lcd m))
            ("T=" ++ dec r ++ " EW=" ++ dec (trafficCountEW m))%string
      | PHASE_EW_GREEN | PHASE_EW_YELLOW =>
          String.eqb (row1 (lcd m))
            ("T=" ++ dec r ++ " NS=" ++ dec (trafficCountNS m))%string
      | PHASE_PED_GREEN => true
      end
  | _ => true
  end.

(** What the refreshes show: in a green phase line 2 carries the seconds
    remaining and the other road's count; in a yellow phase the seconds
    remaining are on line 1 and line 2 carries the other road's count
    alone; in the pedestrian phase line 2 carries the seconds remaining and
    the walk legend. *)
Definition frame_ok (e : Event) : Prop :=
  match e with
  | EvRefresh r m =>
      match currentPhase m with
      | PHASE_NS_GREEN =>
          row1 (lcd m) =
            ("T=" ++ dec r ++ " EW=" ++ dec (trafficCountEW m))%string
      | PHASE_EW_GREEN =>
          row1 (lcd m) =
            ("T=" ++ dec r ++ " NS=" ++ dec (trafficCountNS m))%string
      | PHASE_NS_YELLOW =>
          row0 (lcd m) = ("NSY T=" ++ dec r ++ "s")%string /\
          row1 (lcd m) = ("EW=" ++ dec (trafficCountEW m))%string
      | PHASE_EW_YELLOW =>
          row0 (lcd m) = ("EWY T=" ++ dec r ++ "s")%string /\
          row1 (lcd m) = ("NS=" ++ dec (trafficCountNS m))%string
      | PHASE_PED_GREEN =>
          row0 (lcd m) = "PEDESTRIAN" /\
          row1 (lcd m) = ("T=" ++ dec r ++ " WALK")%string
      end
  | _ => True
  end.

(** Printing a list of pieces one after the other, and their
    concatenation. *)
Definition prints (l : list string) (d : Lcd) : Lcd :=
  fold_left (fun d s => lcd_print s d) l d.

Definition cat (l : list string) : string :=
  fold_right String.append EmptyString l.

(** The press edges that the next call of [readButtons] will see. *)
Definition nsEdge (env : nat -> Z -> bool) (m : Machine) : bool :=
  just_pressed (env (polls m) PIN_BTN_NS_TRAFFIC) (lastNsBtnState m).

Definition ewEdge (env : nat -> Z -> bool) (m : Machine) : bool :=
  just_pressed (env (polls m) PIN_BTN_EW_TRAFFIC) (lastEwBtnState m).

Definition pedEdge (env : nat -> Z -> bool) (m : Machine) : bool :=
  just_pressed (env (polls m) PIN_BTN_PED_REQUEST) (lastPedBtnState m).

(** The pedestrian phase up to, not including, the clearing of the
    latch. *)
Definition pedestrianCore (env : nat -> Z -> bool) : Cmd :=
  assign_currentPhase PHASE_PED_GREEN ;;
  setPedestrianGreenState ;;
  for_down (Z.to_nat PED_TIME_SEC) (pedSecond env) ;;
  setAllVehicleRed ;;
  digitalWrite PIN_PED_RED HIGH ;;
  digitalWrite PIN_PED_GREEN LOW ;;
  lcdShowTwoLines "PEDESTRIAN" "STOP" ;;
  delay 500.

(** The vehicle part of each half of [loop]. *)
Definition nsVehicle (env : nat -> Z -> bool) : Cmd :=
  phaseNsGreen env ;; phaseNsYellow env.

Definition ewVehicle (env : nat -> Z -> bool) : Cmd :=
  phaseEwGreen env ;; phaseEwYellow env.

(** In its own green phase a count stays at its entry value [c0]. *)
Definition ns_frozen (c0 : Z) (m : Machine) : Prop :=
  currentPhase m = PHASE_NS_GREEN /\ trafficCountNS m = c0.

Definition ew_frozen (c0 : Z) (m : Machine) : Prop :=
  currentPhase m = PHASE_EW_GREEN /\ trafficCountEW m = c0.

(** The counts at the start of every [loop]. *)
Definition loop_start (m : Machine) : Prop := within 3100 550 m.

(** [hoare P c E Q]: from a state in [P], every event of [c] is in [E] and
    [c] ends in [Q]. *)
Definition hoare (P : Machine -> Prop) (c : Cmd) (E : Event -> Prop)
           (Q : Machine -> Prop) : Prop :=
  forall m, P m -> Forall E (trace c m) /\ Q (exec c m).

(** ** Sample runs *)

(** 7 vehicles waiting on NS and 16 on EW. *)
Definition seven_sixteen : Machine :=
  set_trafficCountNS 7 (set_trafficCountEW 16 power_on).

(** A pedestrian button that bounces: it reads pressed at every even
    poll. *)
Definition bouncing : nat -> Z -> bool :=
  fun k pin => if pin =? PIN_BTN_PED_REQUEST then Nat.odd k else HIGH.

(** The power-on state with the request already latched. *)
Definition latched_start : Machine := set_pedRequest true power_on.

(** The pedestrian button pressed at polls 120 and 300 only (within the
    first green phase), and the state after [setup]. *)
Definition one_press : nat -> Z -> bool :=
  fun k pin =>
    if pin =? PIN_BTN_PED_REQUEST
    then negb (Nat.eqb k 120 || Nat.eqb k 300)
    else HIGH.

Definition ready : Machine := exec setup power_on.

(** Buttons never pressed. *)
Definition idle : nat -> Z -> bool := fun _ _ => HIGH.

(** The NS count button pressed once, at poll 100. *)
Definition ns_press_at_100 : nat -> Z -> bool :=
  fun k pin =>
    if pin =? PIN_BTN_NS_TRAFFIC then negb (Nat.eqb k 100) else HIGH.

(** The pedestrian button pressed once, at poll 560: in the second second
    of the yellow phase that follows a 10 s green. *)
Definition ped_press_at_560 : nat -> Z -> bool :=
  fun k pin =>
    if pin =? PIN_BTN_PED_REQUEST then negb (Nat.eqb k 560) else HIGH.

(** ** Further vocabulary: the lamps *)

(** A road shows green or yellow. *)
Definition nsGo (m : Machine) : bool :=
  gpio m PIN_NS_GREEN || gpio m PIN_NS_YELLOW.

Definition ewGo (m : Machine) : bool :=
  gpio m PIN_EW_GREEN || gpio m PIN_EW_YELLOW.

(** A road shows red and nothing else. *)
Definition nsStop (m : Machine) : bool :=
  gpio m PIN_NS_RED && negb (gpio m PIN_NS_YELLOW) && negb (gpio m PIN_NS_GREEN).

Definition ewStop (m : Machine) : bool :=
  gpio m PIN_EW_RED && negb (gpio m PIN_EW_YELLOW) && negb (gpio m PIN_EW_GREEN).

(** While a road shows green or yellow the other road shows plain red and
    the pedestrian green is dark; while the pedestrian green is lit both
    roads show plain red. *)
Definition exclusive (m : Machine) : bool :=
  implb (nsGo m) (ewStop m && negb (gpio m PIN_PED_GREEN)) &&
  implb (ewGo m) (nsStop m && negb (gpio m PIN_PED_GREEN)) &&
  implb (gpio m PIN_PED_GREEN) (nsStop m && ewStop m).

Definition exclusive_now (m : Machine) : Prop := exclusive m = true.

(** [exclusive], with the pedestrian green dark. *)
Definition exclusive_calm (m : Machine) : Prop :=
  exclusive m = true /\ gpio m PIN_PED_GREEN = false.

(** The eight lamps: NS red, yellow, green; EW red, yellow, green;
    pedestrian red, green. *)
Definition lamps (m : Machine) : list bool :=
  map (gpio m)
      [PIN_NS_RED; PIN_NS_YELLOW; PIN_NS_GREEN;
       PIN_EW_RED; PIN_EW_YELLOW; PIN_EW_GREEN;
       PIN_PED_RED; PIN_PED_GREEN].

(** The lamps that belong to a phase. *)
Definition lamps_of (p : Phase) : list bool :=
  match p with
  | PHASE_NS_GREEN => [LOW; LOW; HIGH; HIGH; LOW; LOW; HIGH; LOW]
  | PHASE_NS_YELLOW => [LOW; HIGH; LOW; HIGH; LOW; LOW; HIGH; LOW]
  | PHASE_EW_GREEN => [HIGH; LOW; LOW; LOW; LOW; HIGH; HIGH; LOW]
  | PHASE_EW_YELLOW => [HIGH; LOW; LOW; LOW; HIGH; LOW; HIGH; LOW]
  | PHASE_PED_GREEN => [HIGH; LOW; LOW; HIGH; LOW; LOW; LOW; HIGH]
  end.

(** The pedestrian lamps show stop. *)
Definition ped_stop (m : Machine) : Prop :=
  gpio m PIN_PED_RED = true /\ gpio m PIN_PED_GREEN = false.

(** Phase [p] has been entered; its lamps may not be set yet. *)
Definition entering (p : Phase) (m : Machine) : Prop :=
  currentPhase m = p /\ ped_stop m.

(** Phase [p] with its lamps. *)
Definition showing (p : Phase) (m : Machine) : Prop :=
  currentPhase m = p /\ lamps m = lamps_of p.

(** At a poll the lamps are those of the current phase. *)
Definition lamps_at_poll (e : Event) : Prop :=
  match e with
  | EvPoll _ _ _ b _ => lamps b = lamps_of (currentPhase b)
  | _ => True
  end.

(** What the display reads: line 1 and line 2. *)
Definition shown (d : Lcd) : string * string := (row0 d, row1 d).

(** ** Further vocabulary: the insertion points *)

(** The phase an event belongs to. *)
Definition phase_at (e : Event) : Phase :=
  match e with
  | EvPhase m => currentPhase m
  | EvWrite _ _ m => currentPhase m
  | EvRefresh _ m => currentPhase m
  | EvPoll _ _ _ b _ => currentPhase b
  end.



Definition is_yellow (p : Phase) : bool :=
  match p with
  | PHASE_NS_YELLOW | PHASE_EW_YELLOW => true
  | _ => false
  end.

(** The phase entered right after the first yellow phase of [ps]. *)
Fixpoint after_yellow (ps : list Phase) : option Phase :=
  match ps with
  | [] => None
  | p :: ps' => if is_yellow p then hd_error ps' else after_yellow ps'
  end.

(** The phase entered at the next insertion point, seen from phase [p]
    when [ps] are the phases entered later: the insertion points are the
    ends of the yellow phases, so it is the next phase when [p] is a
    yellow, and else the phase after the next yellow. *)
Definition next_insertion (p : Phase) (ps : list Phase) : option Phase :=
  if is_yellow p then hd_error ps else after_yellow ps.

(** The next insertion point enters the pedestrian phase. *)
Definition served_at (p : Phase) (ps : list Phase) : bool :=
  match next_insertion p ps with
  | Some PHASE_PED_GREEN => true
  | _ => false
  end.

(** Every event of [t] at which [asked] holds is followed by a pedestrian
    phase at the next insertion point; [later] are the phases entered after
    [t]. *)
Fixpoint served_before (asked : Event -> bool) (t : Trace)
         (later : list Phase) : bool :=
  match t with
  | [] => true
  | e :: t' =>
      implb (asked e) (served_at (phase_at e) (phases_of t' ++ later)) &&
      served_before asked t' later
  end.

Definition served_next (asked : Event -> bool) (t : Trace) : bool :=
  served_before asked t [].







(** The display of the sketch has 16 columns. *)
Definition LCD_COLS : nat := 16.

(** What the 16 columns of the display show of its two rows. *)
Definition visible (d : Lcd) : string * string :=
  (substring 0 LCD_COLS (row0 d), substring 0 LCD_COLS (row1 d)).

(** * Reasoning about commands *)

Lemma exec_seq (c1 c2 : Cmd) (m : Machine) :
  exec (c1 ;; c2) m = exec c2 (exec c1 m).
Proof.
  unfold exec, seq. destruct (c1 m) as [m1 t1]. simpl.
  destruct (c2 m1) as [m2 t2]. reflexivity.
Qed.

Lemma trace_seq (c1 c2 : Cmd) (m : Machine) :
  trace (c1 ;; c2) m = trace c1 m ++ trace c2 (exec c1 m).
Proof.
  unfold exec, trace, seq. destruct (c1 m) as [m1 t1]. simpl.
  destruct (c2 m1) as [m2 t2]. reflexivity.
Qed.

Lemma schedule_app (t1 t2 : Trace) :
  schedule (t1 ++ t2) = schedule t1 ++ schedule t2.
Proof.
  induction t1 as [|e t1 IH]; simpl; [reflexivity|].
  destruct e; simpl; rewrite IH; reflexivity.
Qed.

Lemma phases_of_app (t1 t2 : Trace) :
  phases_of (t1 ++ t2) = phases_of t1 ++ phases_of t2.
Proof.
  induction t1 as [|e t1 IH]; simpl; [reflexivity|].
  destruct e; simpl; rewrite IH; reflexivity.
Qed.

Section HoareRules.

Variable E : Event -> Prop.

Lemma hoare_skip (P : Machine -> Prop) : hoare P skip E P.
Proof. intros m Hm. split; [constructor | exact Hm]. Qed.

Lemma hoare_seq (P Q R : Machine -> Prop) (c1 c2 : Cmd) :
  hoare P c1 E Q -> hoare Q c2 E R -> hoare P (c1 ;; c2) E R.
Proof.
  intros H1 H2 m Hm. rewrite trace_seq, exec_seq.
  destruct (H1 m Hm) as [T1 Q1]. destruct (H2 _ Q1) as [T2 Q2].
  split; [apply Forall_app; split; assumption | assumption].
Qed.

Lemma hoare_conseq (P P' Q Q' : Machine -> Prop) (c : Cmd) :
  (forall m, P' m -> P m) -> (forall m, Q m -> Q' m) ->
  hoare P c E Q -> hoare P' c E Q'.
Proof.
  intros HP HQ H m Hm. destruct (H m (HP m Hm)) as [T Q1]. auto.
Qed.

Lemma hoare_modify (P Q : Machine -> Prop) (f : Machine -> Machine) :
  (forall m, P m -> Q (f m)) -> hoare P (modify f) E Q.
Proof. intros H m Hm. split; [constructor | exact (H m Hm)]. Qed.

Lemma hoare_emit (P : Machine -> Prop) (e : Machine -> Event) :
  (forall m, P m -> E (e m)) -> hoare P (emit e) E P.
Proof.
  intros H m Hm. split; [|exact Hm].
  constructor; [exact (H m Hm) | constructor].
Qed.

Lemma hoare_read {A : Type} (P Q : Machine -> Prop) (f : Machine -> A)
      (k : A -> Cmd) :
  (forall a, hoare (fun m => P m /\ f m = a) (k a) E Q) ->
  hoare P (read f k) E Q.
Proof. intros H m Hm. exact (H (f m) m (conj Hm eq_refl)). Qed.

Lemma hoare_ifte (P Q : Machine -> Prop) (b : Machine -> bool) (c1 c2 : Cmd) :
  hoare (fun m => P m /\ b m = true) c1 E Q ->
  hoare (fun m => P m /\ b m = false) c2 E Q ->
  hoare P (ifte b c1 c2) E Q.
Proof.
  intros H1 H2 m Hm. unfold trace, exec, ifte.
  destruct (b m) eqn:Hb; [apply (H1 m) | apply (H2 m)]; auto.
Qed.

Lemma hoare_repeat_n (I : Machine -> Prop) (c : Cmd) (n : nat) :
  hoare I c E I -> hoare I (repeat_n n c) E I.
Proof.
  intros H. induction n as [|n IH]; simpl.
  - apply hoare_skip.
  - eapply hoare_seq; eassumption.
Qed.

(** A countdown whose invariant may depend on the iterations left. *)
Lemma hoare_for_down (I : nat -> Machine -> Prop) (body : Z -> Cmd) (n : nat) :
  (forall k, (k < n)%nat -> hoare (I (S k)) (body (Z.of_nat (S k))) E (I k)) ->
  hoare (I n) (for_down n body) E (I O).
Proof.
  induction n as [|n IH]; intros H; simpl.
  - apply hoare_skip.
  - eapply hoare_seq.
    + apply H. lia.
    + apply IH. intros k Hk. apply H. lia.
Qed.

End HoareRules.

(** ** What one call of [readButtons] does *)

Section ReadButtons.

Variable env : nat -> Z -> bool.

Lemma readButtons_trace (m : Machine) :
  trace (readButtons env) m =
  [EvPoll (env (polls m) PIN_BTN_NS_TRAFFIC) (env (polls m) PIN_BTN_EW_TRAFFIC)
          (env (polls m) PIN_BTN_PED_REQUEST) m (exec (readButtons env) m)].
Proof. reflexivity. Qed.

Ltac run_button :=
  unfold exec, read, when, ifte, seq, modify, skip, delay, lcdShowTwoLines,
    lcd_do, digitalRead;
  cbn [fst snd polls lastNsBtnState lastEwBtnState lastPedBtnState
       currentPhase trafficCountNS trafficCountEW pedRequest elapsedMs gpio
       set_trafficCountNS set_trafficCountEW set_pedRequest set_lcd
       set_elapsedMs set_lastNsBtnState set_lastEwBtnState
       set_lastPedBtnState].

Lemma readNsButton_spec (m : Machine) :
  let m' := exec (readNsButton env) m in
  currentPhase m' = currentPhase m /\
  gpio m' = gpio m /\
  polls m' = polls m /\
  pedRequest m' = pedRequest m /\
  trafficCountNS m' =
    (if nsEdge env m && isNsRed m then int_add (trafficCountNS m) 1
     else trafficCountNS m) /\
  trafficCountEW m' = trafficCountEW m /\
  lastNsBtnState m' = env (polls m) PIN_BTN_NS_TRAFFIC /\
  lastEwBtnState m' = lastEwBtnState m /\
  lastPedBtnState m' = lastPedBtnState m /\
  elapsedMs m' = elapsedMs m + 30 * Z.b2z (nsEdge env m).
Proof.
  unfold nsEdge, readNsButton. run_button.
  destruct (just_pressed _ _); [destruct (isNsRed m)|];
    cbn -[int_add Z.add Z.mul]; repeat split; lia.
Qed.

Lemma readEwButton_spec (m : Machine) :
  let m' := exec (readEwButton env) m in
  currentPhase m' = currentPhase m /\
  gpio m' = gpio m /\
  polls m' = polls m /\
  pedRequest m' = pedRequest m /\
  trafficCountNS m' = trafficCountNS m /\
  trafficCountEW m' =
    (if ewEdge env m && isEwRed m then int_add (trafficCountEW m) 1
     else trafficCountEW m) /\
  lastNsBtnState m' = lastNsBtnState m /\
  lastEwBtnState m' = env (polls m) PIN_BTN_EW_TRAFFIC /\
  lastPedBtnState m' = lastPedBtnState m /\
  elapsedMs m' = elapsedMs m + 30 * Z.b2z (ewEdge env m).
Proof.
  unfold ewEdge, readEwButton. run_button.
  destruct (just_pressed _ _); [destruct (isEwRed m)|];
    cbn -[int_add Z.add Z.mul]; repeat split; lia.
Qed.

Lemma readPedButton_spec (m : Machine) :
  let m' := exec (readPedButton env) m in
  currentPhase m' = currentPhase m /\
  gpio m' = gpio m /\
  polls m' = polls m /\
  pedRequest m' = pedRequest m || pedEdge env m /\
  trafficCountNS m' = trafficCountNS m /\
  trafficCountEW m' = trafficCountEW m /\
  lastNsBtnState m' = lastNsBtnState m /\
  lastEwBtnState m' = lastEwBtnState m /\
  lastPedBtnState m' = env (polls m) PIN_BTN_PED_REQUEST /\
  elapsedMs m' = elapsedMs m + 30 * Z.b2z (pedEdge env m).
Proof.
  unfold pedEdge, readPedButton. run_button.
  destruct (just_pressed _ _);
    cbn -[Z.add Z.mul]; repeat split;
    try lia; destruct (pedRequest m); reflexivity.
Qed.

Lemma readButtons_spec (m : Machine) :
  let m' := exec (readButtons env) m in
  currentPhase m' = currentPhase m /\
  gpio m' = gpio m /\
  polls m' = S (polls m) /\
  pedRequest m' = pedRequest m || pedEdge env m /\
  trafficCountNS m' =
    (if nsEdge env m && isNsRed m then int_add (trafficCountNS m) 1
     else trafficCountNS m) /\
  trafficCountEW m' =
    (if ewEdge env m && isEwRed m then int_add (trafficCountEW m) 1
     else trafficCountEW m) /\
  lastNsBtnState m' = env (polls m) PIN_BTN_NS_TRAFFIC /\
  lastEwBtnState m' = env (polls m) PIN_BTN_EW_TRAFFIC /\
  lastPedBtnState m' = env (polls m) PIN_BTN_PED_REQUEST /\
  elapsedMs m' =
    elapsedMs m + 30 * (Z.b2z (nsEdge env m) + Z.b2z (ewEdge env m) + Z.b2z (pedEdge env m)).
Proof.
  cbv zeta.
  change (exec (readButtons env) m) with
    (let m' := exec (readNsButton env ;; readEwButton env ;; readPedButton env) m
     in set_polls (S (polls m')) m').
  cbv zeta. rewrite !exec_seq.
  pose proof (readNsButton_spec m) as N. cbv zeta in N.
  set (m1 := exec (readNsButton env) m) in *.
  pose proof (readEwButton_spec m1) as W. cbv zeta in W.
  set (m2 := exec (readEwButton env) m1) in *.
  pose proof (readPedButton_spec m2) as D. cbv zeta in D.
  set (m3 := exec (readPedButton env) m2) in *.
  destruct N as (N1 & N2 & N3 & N4 & N5 & N6 & N7 & N8 & N9 & N10).
  destruct W as (W1 & W2 & W3 & W4 & W5 & W6 & W7 & W8 & W9 & W10).
  destruct D as (D1 & D2 & D3 & D4 & D5 & D6 & D7 & D8 & D9 & D10).
  assert (Hw : ewEdge env m1 = ewEdge env m)
    by (unfold ewEdge; rewrite N3, N8; reflexivity).
  assert (Hd : pedEdge env m2 = pedEdge env m)
    by (unfold pedEdge; rewrite W3, W9, N3, N9; reflexivity).
  assert (Hr : isEwRed m1 = isEwRed m)
    by (unfold isEwRed; rewrite N1; reflexivity).
  cbn [set_polls currentPhase gpio polls pedRequest trafficCountNS
       trafficCountEW lastNsBtnState lastEwBtnState lastPedBtnState elapsedMs].
  rewrite Hw, Hr, N6 in W6. rewrite Hw in W10. rewrite Hd in *.
  repeat split; try congruence; try lia.
Qed.

End ReadButtons.

(** * Green-time policy *)

Ltac split_count c :=
  destruct (Z.geb_spec c 15); [|destruct (Z.geb_spec c 10);
    [|destruct (Z.geb_spec c 5)]].

Lemma computeNsGreenSeconds_table (m : Machine) :
  let c := trafficCountNS m in
  (c < 5 -> computeNsGreenSeconds m = 10) /\
  (5 <= c < 10 -> computeNsGreenSeconds m = 20) /\
  (10 <= c < 15 -> computeNsGreenSeconds m = 30) /\
  (15 <= c -> computeNsGreenSeconds m = 40).
Proof.
  cbv zeta. unfold computeNsGreenSeconds.
  split_count (trafficCountNS m); repeat split; intros; try lia; reflexivity.
Qed.

Lemma computeEwGreenSeconds_table (m : Machine) :
  let c := trafficCountEW m in
  (c < 5 -> computeEwGreenSeconds m = 10) /\
  (5 <= c < 10 -> computeEwGreenSeconds m = 20) /\
  (10 <= c < 15 -> computeEwGreenSeconds m = 30) /\
  (15 <= c -> computeEwGreenSeconds m = 40).
Proof.
  cbv zeta. unfold computeEwGreenSeconds.
  split_count (trafficCountEW m); repeat split; intros; try lia; reflexivity.
Qed.

Lemma computeNsGreenSeconds_range (m : Machine) :
  computeNsGreenSeconds m = 10 \/ computeNsGreenSeconds m = 20 \/
  computeNsGreenSeconds m = 30 \/ computeNsGreenSeconds m = 40.
Proof.
  destruct (computeNsGreenSeconds_table m) as (A & B & C & D).
  assert (H : trafficCountNS m < 5 \/ 5 <= trafficCountNS m < 10 \/
              10 <= trafficCountNS m < 15 \/ 15 <= trafficCountNS m) by lia.
  intuition.
Qed.

Lemma computeEwGreenSeconds_range (m : Machine) :
  computeEwGreenSeconds m = 10 \/ computeEwGreenSeconds m = 20 \/
  computeEwGreenSeconds m = 30 \/ computeEwGreenSeconds m = 40.
Proof.
  destruct (computeEwGreenSeconds_table m) as (A & B & C & D).
  assert (H : trafficCountEW m < 5 \/ 5 <= trafficCountEW m < 10 \/
              10 <= trafficCountEW m < 15 \/ 15 <= trafficCountEW m) by lia.
  intuition.
Qed.

Lemma computeNsGreenSeconds_mono (m m' : Machine) :
  trafficCountNS m <= trafficCountNS m' ->
  computeNsGreenSeconds m <= computeNsGreenSeconds m'.
Proof.
  intros Hle. unfold computeNsGreenSeconds.
  split_count (trafficCountNS m); split_count (trafficCountNS m');
    first [exfalso; lia | vm_compute; congruence].
Qed.

Lemma computeEwGreenSeconds_mono (m m' : Machine) :
  trafficCountEW m <= trafficCountEW m' ->
  computeEwGreenSeconds m <= computeEwGreenSeconds m'.
Proof.
  intros Hle. unfold computeEwGreenSeconds.
  split_count (trafficCountEW m); split_count (trafficCountEW m');
    first [exfalso; lia | vm_compute; congruence].
Qed.

(** C1.  For a non-negative count the green time is 10 s below 5 vehicles,
    20 s from 5 to 9, 30 s from 10 to 14 and 40 s from 15 on, for the NS
    road on [trafficCountNS] and for the EW road on [trafficCountEW]; a
    larger count never gets a shorter green. *)
Theorem green_time_policy (m : Machine) :
  0 <= trafficCountNS m -> 0 <= trafficCountEW m ->
  (trafficCountNS m < 5 -> computeNsGreenSeconds m = 10) /\
  (5 <= trafficCountNS m < 10 -> computeNsGreenSeconds m = 20) /\
  (10 <= trafficCountNS m < 15 -> computeNsGreenSeconds m = 30) /\
  (15 <= trafficCountNS m -> computeNsGreenSeconds m = 40) /\
  (trafficCountEW m < 5 -> computeEwGreenSeconds m = 10) /\
  (5 <= trafficCountEW m < 10 -> computeEwGreenSeconds m = 20) /\
  (10 <= trafficCountEW m < 15 -> computeEwGreenSeconds m = 30) /\
  (15 <= trafficCountEW m -> computeEwGreenSeconds m = 40) /\
  (forall m', trafficCountNS m <= trafficCountNS m' ->
              computeNsGreenSeconds m <= computeNsGreenSeconds m') /\
  (forall m', trafficCountEW m <= trafficCountEW m' ->
              computeEwGreenSeconds m <= computeEwGreenSeconds m').
Proof.
  intros _ _.
  destruct (computeNsGreenSeconds_table m) as (N1 & N2 & N3 & N4).
  destruct (computeEwGreenSeconds_table m) as (W1 & W2 & W3 & W4).
  repeat split; try assumption.
  - apply computeNsGreenSeconds_mono.
  - apply computeEwGreenSeconds_mono.
Qed.

Lemma green_time_policy_witness :
  computeNsGreenSeconds seven_sixteen = 20 /\
  computeEwGreenSeconds seven_sixteen = 40.
Proof.
  assert (N : 0 <= trafficCountNS seven_sixteen) by (simpl; lia).
  assert (W : 0 <= trafficCountEW seven_sixteen) by (simpl; lia).
  destruct (green_time_policy seven_sixteen N W)
    as (_ & N2 & _ & _ & _ & _ & _ & W4 & _).
  split; [apply N2 | apply W4]; simpl; lia.
Defined.

(** C10.  Whatever the counts, both green times are at least
    [BASE_GREEN_SEC], so [totalSecs - baseSecs] is never negative and the
    clamp to 0 at green entry never fires: the extra shown is the plain
    difference. *)
Theorem extra_never_clamped (m : Machine) :
  BASE_GREEN_SEC <= computeNsGreenSeconds m /\
  BASE_GREEN_SEC <= computeEwGreenSeconds m /\
  (int_sub (computeNsGreenSeconds m) BASE_GREEN_SEC <? 0) = false /\
  (int_sub (computeEwGreenSeconds m) BASE_GREEN_SEC <? 0) = false /\
  extraSecsOf (computeNsGreenSeconds m) BASE_GREEN_SEC =
    computeNsGreenSeconds m - BASE_GREEN_SEC /\
  extraSecsOf (computeEwGreenSeconds m) BASE_GREEN_SEC =
    computeEwGreenSeconds m - BASE_GREEN_SEC.
Proof.
  unfold extraSecsOf.
  destruct (computeNsGreenSeconds_range m) as [N|[N|[N|N]]];
    destruct (computeEwGreenSeconds_range m) as [W|[W|[W|W]]];
    rewrite N, W; repeat split; vm_compute; congruence.
Qed.

(** * Signal safety *)

Lemma hoare_events (E E' : Event -> Prop) (P Q : Machine -> Prop) (c : Cmd) :
  (forall e, E e -> E' e) -> hoare P c E Q -> hoare P c E' Q.
Proof.
  intros HE H m Hm. destruct (H m Hm) as [T Q1]. split; [|exact Q1].
  eapply Forall_impl; [exact HE | exact T].
Qed.

Lemma hoare_read_any {A : Type} (E : Event -> Prop) (P Q : Machine -> Prop)
      (f : Machine -> A) (k : A -> Cmd) :
  (forall a, hoare P (k a) E Q) -> hoare P (read f k) E Q.
Proof. intros H m Hm. exact (H (f m) m Hm). Qed.

Lemma hoare_assoc3 (E : Event -> Prop) (P Q : Machine -> Prop)
      (c1 c2 c3 c4 : Cmd) :
  hoare P ((c1 ;; c2 ;; c3) ;; c4) E Q -> hoare P (c1 ;; c2 ;; c3 ;; c4) E Q.
Proof.
  intros H m Hm. destruct (H m Hm) as [T Q1].
  rewrite !trace_seq, !exec_seq in *. rewrite <- !app_assoc in T. auto.
Qed.

Lemma calm_safe (m : Machine) : calm m -> safe m.
Proof. intros [A B]. split; [exact A | congruence]. Qed.

Lemma walking_safe (m : Machine) : walking m -> safe m.
Proof. intros [A B]. split; [exact A | intros _; exact B]. Qed.

Lemma on_signals_calm : on_signals calm.
Proof. intros m m' Hp Hg [A B]. unfold calm, no_conflict in *. rewrite Hg. auto. Qed.

Lemma on_signals_walking : on_signals walking.
Proof.
  intros m m' Hp Hg [A B]. unfold walking, no_conflict in *.
  rewrite Hg, Hp. auto.
Qed.

Section Signals.

Variable env : nat -> Z -> bool.
Variable P : Machine -> Prop.
Hypothesis P_signals : on_signals P.
Hypothesis P_safe : forall m, P m -> safe m.

Lemma keeps_lcd_do (f : Lcd -> Lcd) : hoare P (lcd_do f) (ev_all safe) P.
Proof.
  apply hoare_modify. intros m Hm. eapply P_signals; [| |exact Hm]; reflexivity.
Qed.

Lemma keeps_delay (ms : Z) : hoare P (delay ms) (ev_all safe) P.
Proof.
  apply hoare_modify. intros m Hm. eapply P_signals; [| |exact Hm]; reflexivity.
Qed.

Lemma keeps_lcdShowTwoLines (l1 l2 : string) :
  hoare P (lcdShowTwoLines l1 l2) (ev_all safe) P.
Proof.
  unfold lcdShowTwoLines.
  repeat (eapply hoare_seq; [apply keeps_lcd_do|]). apply keeps_lcd_do.
Qed.

Lemma keeps_refresh (r : Z) : hoare P (emit (EvRefresh r)) (ev_all safe) P.
Proof.
  apply hoare_emit. intros m Hm. constructor; [auto | constructor].
Qed.

Lemma keeps_readButtons : hoare P (readButtons env) (ev_all safe) P.
Proof.
  intros m Hm. rewrite readButtons_trace.
  destruct (readButtons_spec env m) as (Hp & Hg & _).
  assert (Hm' : P (exec (readButtons env) m))
    by (eapply P_signals; eassumption).
  split; [|exact Hm'].
  constructor; [|constructor].
  constructor; [auto | constructor; [auto | constructor]].
Qed.

Lemma keeps_waitOneSecondWithButtons :
  hoare P (waitOneSecondWithButtons env) (ev_all safe) P.
Proof.
  apply hoare_repeat_n. eapply hoare_seq;
    [apply keeps_readButtons | apply keeps_delay].
Qed.

End Signals.

(** The pin writes of one signal change, event by event. *)
Ltac run_pins :=
  unfold hoare, trace, exec, setNsGreenState, setNsYellowState,
    setEwGreenState, setEwYellowState, setPedestrianGreenState,
    setAllVehicleRed, assign_currentPhase, digitalWrite, seq, modify, emit;
  unfold safe, calm, walking, no_conflict, ev_all, snapshots;
  unfold PIN_NS_RED, PIN_NS_YELLOW, PIN_NS_GREEN, PIN_EW_RED, PIN_EW_YELLOW,
    PIN_EW_GREEN, PIN_PED_RED, PIN_PED_GREEN, HIGH, LOW;
  cbn;
  intros;
  repeat match goal with
         | H : _ /\ _ |- _ => destruct H
         end;
  repeat match goal with
         | |- _ /\ _ => split
         | |- Forall _ (_ :: _) => constructor
         | |- Forall _ [] => constructor
         end;
  cbn;
  intros;
  first [ assumption | reflexivity | congruence | apply andb_false_r ].

Lemma calm_setAllVehicleRed :
  hoare calm setAllVehicleRed (ev_all safe) calm.
Proof. run_pins. Qed.

Lemma calm_setNsGreenState :
  hoare calm setNsGreenState (ev_all safe) calm.
Proof. run_pins. Qed.

Lemma calm_setNsYellowState :
  hoare calm setNsYellowState (ev_all safe) calm.
Proof. run_pins. Qed.

Lemma calm_setEwGreenState :
  hoare calm setEwGreenState (ev_all safe) calm.
Proof. run_pins. Qed.

Lemma calm_setEwYellowState :
  hoare calm setEwYellowState (ev_all safe) calm.
Proof. run_pins. Qed.

Lemma calm_assign_currentPhase (p : Phase) :
  hoare calm (assign_currentPhase p) (ev_all safe)
        (fun m => calm m /\ currentPhase m = p).
Proof. run_pins. Qed.

Lemma walking_setPedestrianGreenState :
  hoare (fun m => calm m /\ currentPhase m = PHASE_PED_GREEN)
        setPedestrianGreenState (ev_all safe) walking.
Proof. run_pins. Qed.

Lemma calm_after_walking :
  hoare walking
        (setAllVehicleRed ;;
         digitalWrite PIN_PED_RED HIGH ;;
         digitalWrite PIN_PED_GREEN LOW)
        (ev_all safe) calm.
Proof. run_pins. Qed.

Lemma calm_setup_pins :
  hoare calm
        (setAllVehicleRed ;;
         digitalWrite PIN_PED_RED HIGH ;;
         digitalWrite PIN_PED_GREEN LOW)
        (ev_all safe) calm.
Proof. run_pins. Qed.

Ltac keep_step S F env :=
  lazymatch goal with
  | |- hoare _ (_ ;; _) _ _ =>
      eapply hoare_seq; [keep_step S F env | keep_step S F env]
  | |- hoare _ (lcd_do _) _ _ => apply keeps_lcd_do
  | |- hoare _ (delay _) _ _ => apply keeps_delay
  | |- hoare _ (lcdShowTwoLines _ _) _ _ => apply keeps_lcdShowTwoLines
  | |- hoare _ (emit (EvRefresh _)) _ _ => apply keeps_refresh
  | |- hoare _ (waitOneSecondWithButtons _) _ _ =>
      apply keeps_waitOneSecondWithButtons
  | |- hoare _ (read _ _) _ _ =>
      apply hoare_read_any; intro; apply keeps_lcd_do
  | |- hoare _ setNsYellowState _ _ => apply calm_setNsYellowState
  | |- hoare _ setEwYellowState _ _ => apply calm_setEwYellowState
  | |- hoare _ (modify _) _ _ =>
      apply hoare_modify; intros ? ?; eapply S; [| |eassumption]; reflexivity
  end;
  try first [exact S | exact F].

Ltac keep_all S F env :=
  unfold nsGreenSecond, nsYellowSecond, ewGreenSecond, ewYellowSecond,
    pedSecond;
  unfold nsGreenDisplay, nsYellowDisplay, ewGreenDisplay, ewYellowDisplay,
    pedDisplay;
  keep_step S F env.

Section Safety.

Variable env : nat -> Z -> bool.

Lemma calm_enter (p : Phase) :
  hoare calm (assign_currentPhase p) (ev_all safe) calm.
Proof.
  eapply hoare_conseq; [| |apply (calm_assign_currentPhase p)];
    [auto | intros m [H _]; exact H].
Qed.

Lemma safe_phaseNsGreen :
  hoare calm (phaseNsGreen env) (ev_all safe) calm.
Proof.
  unfold phaseNsGreen.
  eapply hoare_seq; [apply calm_enter|].
  apply hoare_read_any; intros totalSecs. cbv zeta.
  eapply hoare_seq; [apply calm_setNsGreenState|].
  eapply hoare_seq.
  - apply (hoare_for_down _ (fun _ => calm)). intros k _.
    keep_all on_signals_calm calm_safe env.
  - keep_step on_signals_calm calm_safe env.
Qed.

Lemma safe_phaseEwGreen :
  hoare calm (phaseEwGreen env) (ev_all safe) calm.
Proof.
  unfold phaseEwGreen.
  eapply hoare_seq; [apply calm_enter|].
  apply hoare_read_any; intros totalSecs. cbv zeta.
  eapply hoare_seq; [apply calm_setEwGreenState|].
  eapply hoare_seq.
  - apply (hoare_for_down _ (fun _ => calm)). intros k _.
    keep_all on_signals_calm calm_safe env.
  - keep_step on_signals_calm calm_safe env.
Qed.

Lemma safe_phaseNsYellow :
  hoare calm (phaseNsYellow env) (ev_all safe) calm.
Proof.
  unfold phaseNsYellow.
  eapply hoare_seq; [apply calm_enter|].
  apply (hoare_for_down _ (fun _ => calm)). intros k _.
  keep_all on_signals_calm calm_safe env.
Qed.

Lemma safe_phaseEwYellow :
  hoare calm (phaseEwYellow env) (ev_all safe) calm.
Proof.
  unfold phaseEwYellow.
  eapply hoare_seq; [apply calm_enter|].
  apply (hoare_for_down _ (fun _ => calm)). intros k _.
  keep_all on_signals_calm calm_safe env.
Qed.

Lemma safe_pedestrianPhase :
  hoare calm (pedestrianPhase env) (ev_all safe) calm.
Proof.
  unfold pedestrianPhase.
  eapply hoare_seq; [apply calm_assign_currentPhase|].
  eapply hoare_seq; [apply walking_setPedestrianGreenState|].
  eapply hoare_seq.
  - apply (hoare_for_down _ (fun _ => walking)). intros k _.
    keep_all on_signals_walking walking_safe env.
  - apply hoare_assoc3.
    eapply hoare_seq; [apply calm_after_walking|].
    keep_all on_signals_calm calm_safe env.
Qed.

Lemma safe_phasePedestrianIfRequested :
  hoare calm (phasePedestrianIfRequested env) (ev_all safe) calm.
Proof.
  unfold phasePedestrianIfRequested. apply hoare_ifte.
  - eapply hoare_conseq; [| |apply hoare_skip]; [intros m [H _]; exact H | auto].
  - eapply hoare_conseq; [| |apply safe_pedestrianPhase];
      [intros m [H _]; exact H | auto].
Qed.

Lemma safe_loop : hoare calm (loop env) (ev_all safe) calm.
Proof.
  unfold loop, nsHalf, ewHalf.
  eapply hoare_seq;
    [eapply hoare_seq; [apply safe_phaseNsGreen|];
     eapply hoare_seq; [apply safe_phaseNsYellow|];
     apply safe_phasePedestrianIfRequested|].
  eapply hoare_seq; [apply safe_phaseEwGreen|].
  eapply hoare_seq; [apply safe_phaseEwYellow|].
  apply safe_phasePedestrianIfRequested.
Qed.

Lemma safe_setup : hoare calm setup (ev_all safe) calm.
Proof.
  unfold setup, pinMode.
  eapply hoare_seq; [keep_step on_signals_calm calm_safe env|].
  eapply hoare_seq; [keep_step on_signals_calm calm_safe env|].
  do 11 (eapply hoare_seq; [apply hoare_skip|]).
  apply hoare_assoc3.
  eapply hoare_seq; [apply calm_setup_pins|].
  keep_all on_signals_calm calm_safe env.
Qed.

Lemma safe_sketch (n : nat) : hoare calm (sketch env n) (ev_all safe) calm.
Proof.
  unfold sketch. eapply hoare_seq; [apply safe_setup|].
  apply hoare_repeat_n. apply safe_loop.
Qed.

Lemma calm_power_on : calm power_on.
Proof. split; reflexivity. Qed.

End Safety.

(** C4.  In every run, after every single [digitalWrite] (so also between
    the all-red writes and the write that lights one colour), after every
    phase change, at every refresh and around every button poll: the NS
    green and the EW green are not both lit, and the pedestrian green is
    lit only while [currentPhase] is [PHASE_PED_GREEN]. *)
Theorem signals_never_conflict (env : nat -> Z -> bool) (n : nat) :
  Forall (ev_all safe) (trace (sketch env n) power_on).
Proof.
  exact (proj1 (safe_sketch env n power_on calm_power_on)).
Qed.

(** * Effects of the phase bodies *)

Lemma tally_app (f : Event -> bool) (t1 t2 : Trace) :
  tally f (t1 ++ t2) = tally f t1 + tally f t2.
Proof. induction t1 as [|e t1 IH]; simpl; [reflexivity | rewrite IH; lia]. Qed.

Lemma tally_bounds (f : Event -> bool) (t : Trace) :
  0 <= tally f t <= Z.of_nat (List.length t).
Proof.
  induction t as [|e t IH]; [simpl; lia|].
  cbn [tally List.length]. destruct (f e); cbn [Z.b2z]; lia.
Qed.

Lemma pressesIn_app (t1 t2 : Trace) :
  pressesIn (t1 ++ t2) = pressesIn t1 + pressesIn t2.
Proof. unfold pressesIn. rewrite !tally_app. lia. Qed.

Lemma pedPressed_app (t1 t2 : Trace) :
  pedPressed (t1 ++ t2) = pedPressed t1 || pedPressed t2.
Proof. apply existsb_app. Qed.

Lemma latchSeen_app (t1 t2 : Trace) :
  latchSeen (t1 ++ t2) = latchSeen t1 || latchSeen t2.
Proof. apply existsb_app. Qed.

Ltac quiet :=
  constructor;
  unfold exec, trace, skip, modify, emit, lcd_do, delay, digitalWrite, seq,
    pressesIn, pedPressed, latchSeen, in_range;
  cbn;
  rewrite ?orb_false_r;
  intros;
  repeat split;
  try first [reflexivity | assumption | lia | solve [repeat constructor]].

Lemma effect_skip (m : Machine) : effect skip [] 0 0 m.
Proof. quiet. Qed.

Lemma effect_lcd_do (f : Lcd -> Lcd) (m : Machine) :
  effect (lcd_do f) [] 0 0 m.
Proof. quiet. Qed.

Lemma effect_delay (ms : Z) (m : Machine) : effect (delay ms) [] 0 ms m.
Proof. quiet. Qed.

Lemma effect_digitalWrite (pin : Z) (level : bool) (m : Machine) :
  effect (digitalWrite pin level) [] 0 0 m.
Proof. quiet. Qed.

Lemma effect_refresh (r : Z) (m : Machine) :
  effect (emit (EvRefresh r)) [r] 0 0 m.
Proof. quiet. Qed.

Lemma effect_read {A : Type} (f : Machine -> A) (k : A -> Cmd)
      (shown : list Z) (n : nat) (d : Z) (m : Machine) :
  effect (k (f m)) shown n d m -> effect (read f k) shown n d m.
Proof. intros H. destruct H. constructor; assumption. Qed.

Lemma effect_seq (c1 c2 : Cmd) (l1 l2 : list Z) (k1 k2 : nat) (d1 d2 : Z)
      (m : Machine) :
  effect c1 l1 k1 d1 m ->
  effect c2 l2 k2 d2 (exec c1 m) ->
  effect (c1 ;; c2) (l1 ++ l2) (k1 + k2) (d1 + d2) m.
Proof.
  intros [A1 A2 A3 A4 A5 A6 A7 A8 A9] [B1 B2 B3 B4 B5 B6 B7 B8 B9].
  constructor; rewrite ?exec_seq, ?trace_seq.
  - congruence.
  - rewrite phases_of_app, A2, B2. reflexivity.
  - rewrite schedule_app, A3, B3, A1, map_app. reflexivity.
  - rewrite pedPressed_app, B4, A4, orb_assoc. reflexivity.
  - rewrite latchSeen_app. intros H. apply orb_true_iff in H.
    destruct H as [H|H]; [|exact (B5 H)].
    rewrite B4, (A5 H). reflexivity.
  - rewrite B6, A6. lia.
  - rewrite pressesIn_app, B7, A7. lia.
  - rewrite !tally_app. lia.
  - intros R. rewrite !tally_app.
    assert (R1 : in_range (Z.of_nat k1) m)
      by (unfold in_range in *; lia).
    destruct (A9 R1) as (N1 & W1 & P1).
    assert (R2 : in_range (Z.of_nat k2) (exec c1 m))
      by (unfold in_range in *; lia).
    destruct (B9 R2) as (N2 & W2 & P2).
    repeat split; [lia | lia | apply Forall_app; split; assumption].
Qed.

Lemma effect_repeat_n (c : Cmd) (k : nat) (d : Z) (n : nat) :
  (forall m, effect c [] k d m) ->
  forall m, effect (repeat_n n c) [] (n * k) (Z.of_nat n * d) m.
Proof.
  intros H. induction n as [|n IH]; intros m.
  - apply effect_skip.
  - replace (Z.of_nat (S n) * d) with (d + Z.of_nat n * d) by lia.
    change (S n * k)%nat with (k + n * k)%nat.
    change (@nil Z) with (@nil Z ++ @nil Z).
    apply effect_seq; [apply H | apply IH].
Qed.

Lemma effect_for_down (body : Z -> Cmd) (k : nat) (d : Z) (n : nat) :
  (forall r m, effect (body r) [r] k d m) ->
  forall m, effect (for_down n body) (down n) (n * k) (Z.of_nat n * d) m.
Proof.
  intros H. induction n as [|n IH]; intros m.
  - apply effect_skip.
  - replace (Z.of_nat (S n) * d) with (d + Z.of_nat n * d) by lia.
    change (S n * k)%nat with (k + n * k)%nat.
    change (down (S n)) with ([Z.of_nat (S n)] ++ down n).
    apply effect_seq; [apply H | apply IH].
Qed.

Lemma int_add_small (a b : Z) :
  INT_MIN <= a + b <= INT_MAX -> int_add a b = a + b.
Proof.
  unfold int_add, wrap_int, INT_MIN, INT_MAX. intros H.
  rewrite Z.mod_small; lia.
Qed.

Lemma effect_cast (c : Cmd) (l l' : list Z) (k k' : nat) (d d' : Z)
      (m : Machine) :
  effect c l k d m -> l = l' -> k = k' -> d = d' -> effect c l' k' d' m.
Proof. intros H -> -> ->. exact H. Qed.

Section Effects.

Variable env : nat -> Z -> bool.

Lemma effect_readButtons (m : Machine) : effect (readButtons env) [] 1 0 m.
Proof.
  destruct (readButtons_spec env m)
    as (Hp & Hg & Hk & Hl & Hn & Hw & _ & _ & _ & Ht).
  unfold nsEdge, ewEdge, pedEdge in *.
  constructor; rewrite ?readButtons_trace;
    unfold pressesIn, pedPressed, latchSeen;
    cbn [phases_of schedule map existsb tally snapshots pedPress nsPress
         ewPress nsAccepted ewAccepted Z.of_nat Pos.of_succ_nat].
  - exact Hp.
  - reflexivity.
  - reflexivity.
  - rewrite orb_false_r. exact Hl.
  - rewrite Hl. destruct (pedRequest m), (just_pressed _ _); auto.
  - lia.
  - lia.
  - destruct (_ && isNsRed m), (_ && isEwRed m); cbn [Z.b2z]; lia.
  - intros (R1 & R2 & R3 & R4). unfold INT_MAX in *.
    rewrite Hn, Hw.
    assert (I1 : int_add (trafficCountNS m) 1 = trafficCountNS m + 1)
      by (apply int_add_small; unfold INT_MIN, INT_MAX; lia).
    assert (I2 : int_add (trafficCountEW m) 1 = trafficCountEW m + 1)
      by (apply int_add_small; unfold INT_MIN, INT_MAX; lia).
    rewrite I1, I2.
    assert (A : (if just_pressed (env (polls m) PIN_BTN_NS_TRAFFIC)
                      (lastNsBtnState m) && isNsRed m
                 then trafficCountNS m + 1 else trafficCountNS m) =
                trafficCountNS m +
                Z.b2z (just_pressed (env (polls m) PIN_BTN_NS_TRAFFIC)
                         (lastNsBtnState m) && isNsRed m))
      by (destruct (_ && isNsRed m); cbn [Z.b2z]; lia).
    assert (B : (if just_pressed (env (polls m) PIN_BTN_EW_TRAFFIC)
                      (lastEwBtnState m) && isEwRed m
                 then trafficCountEW m + 1 else trafficCountEW m) =
                trafficCountEW m +
                Z.b2z (just_pressed (env (polls m) PIN_BTN_EW_TRAFFIC)
                         (lastEwBtnState m) && isEwRed m))
      by (destruct (_ && isEwRed m); cbn [Z.b2z]; lia).
    repeat split.
    + rewrite A. lia.
    + rewrite B. lia.
    + constructor; [|constructor]. cbn [poll_ok nsAccepted ewAccepted nsPress ewPress].
      rewrite Hn, Hw, I1, I2. split; [exact A | exact B].
Qed.

Lemma effect_waitOneSecondWithButtons (m : Machine) :
  effect (waitOneSecondWithButtons env) [] 50 1000 m.
Proof.
  unfold waitOneSecondWithButtons.
  eapply effect_cast.
  - apply (effect_repeat_n (readButtons env ;; delay 20) (1 + 0) (0 + 20)).
    intros m'. change (@nil Z) with (@nil Z ++ @nil Z).
    apply effect_seq; [apply effect_readButtons | apply effect_delay].
  - reflexivity.
  - reflexivity.
  - reflexivity.
Qed.

End Effects.

(** Build the summary of a straight-line command from its parts. *)
Ltac eff_build :=
  lazymatch goal with
  | |- effect (_ ;; _) _ _ _ _ => eapply effect_seq; [eff_build | eff_build]
  | |- effect skip _ _ _ _ => apply effect_skip
  | |- effect (lcd_do _) _ _ _ _ => apply effect_lcd_do
  | |- effect (delay _) _ _ _ _ => apply effect_delay
  | |- effect (digitalWrite _ _) _ _ _ _ => apply effect_digitalWrite
  | |- effect (emit (EvRefresh _)) _ _ _ _ => apply effect_refresh
  | |- effect (waitOneSecondWithButtons _) _ _ _ _ =>
      apply effect_waitOneSecondWithButtons
  | |- effect (read _ _) _ _ _ _ => apply effect_read; cbv beta; eff_build
  end.

Ltac eff :=
  unfold nsGreenSecond, nsYellowSecond, ewGreenSecond, ewYellowSecond,
    pedSecond;
  unfold nsGreenDisplay, nsYellowDisplay, ewGreenDisplay, ewYellowDisplay,
    pedDisplay;
  unfold lcdShowTwoLines, setNsGreenState, setNsYellowState, setEwGreenState,
    setEwYellowState, setPedestrianGreenState;
  unfold setAllVehicleRed;
  eapply effect_cast; [eff_build | reflexivity | reflexivity | reflexivity].

Section PhaseEffects.

Variable env : nat -> Z -> bool.

Lemma effect_nsGreenSecond (baseSecs extraSecs r : Z) (m : Machine) :
  effect (nsGreenSecond env baseSecs extraSecs r) [r] 50 1000 m.
Proof. eff. Qed.

Lemma effect_ewGreenSecond (baseSecs extraSecs r : Z) (m : Machine) :
  effect (ewGreenSecond env baseSecs extraSecs r) [r] 50 1000 m.
Proof. eff. Qed.

Lemma effect_nsYellowSecond (r : Z) (m : Machine) :
  effect (nsYellowSecond env r) [r] 50 1000 m.
Proof. eff. Qed.

Lemma effect_ewYellowSecond (r : Z) (m : Machine) :
  effect (ewYellowSecond env r) [r] 50 1000 m.
Proof. eff. Qed.

Lemma effect_pedSecond (r : Z) (m : Machine) :
  effect (pedSecond env r) [r] 50 1000 m.
Proof. eff. Qed.

End PhaseEffects.

(** * Effects of the phase functions *)

Lemma entered_assign (p : Phase) (core : Cmd) (l : list Z) (k : nat) (d : Z)
      (m : Machine) :
  effect core l k d (set_currentPhase p m) ->
  entered (assign_currentPhase p ;; core) p l k d m /\
  latching (assign_currentPhase p ;; core) m /\
  ns_tallied (assign_currentPhase p ;; core) k m /\
  ew_tallied (assign_currentPhase p ;; core) k m.
Proof.
  intros [A1 A2 A3 A4 A5 A6 A7 A8 A9].
  assert (Hx : exec (assign_currentPhase p ;; core) m =
               exec core (set_currentPhase p m))
    by (rewrite exec_seq; reflexivity).
  assert (Ht : trace (assign_currentPhase p ;; core) m =
               EvPhase (set_currentPhase p m) :: trace core (set_currentPhase p m))
    by (rewrite trace_seq; reflexivity).
  cbn [currentPhase pedRequest polls elapsedMs set_currentPhase] in *.
  unfold ns_tallied, ew_tallied.
  split; [|split; [|split]]; [constructor|constructor| |];
    rewrite ?Hx, ?Ht;
    unfold pressesIn, pedPressed, latchSeen in *;
    cbn [phases_of schedule tally nsAccepted ewAccepted nsPress ewPress
         pedPress existsb snapshots Z.b2z pedRequest set_currentPhase].
  - exact A1.
  - rewrite A2. reflexivity.
  - exact A3.
  - exact A6.
  - rewrite A7. lia.
  - lia.
  - intros R. constructor; [exact I | apply A9; exact R].
  - exact A4.
  - rewrite orb_false_r. destruct (pedRequest m) eqn:E.
    + intros _. rewrite A4. reflexivity.
    + exact A5.
  - intros R. destruct (A9 R) as (N & _ & _).
    cbn [trafficCountNS set_currentPhase] in N. lia.
  - intros R. destruct (A9 R) as (_ & W & _).
    cbn [trafficCountEW set_currentPhase] in W. lia.
Qed.

(** A command [c] that is [c'] followed by an update [g] of the state
    inherits what [g] leaves alone. *)
Section After.

Variables (c c' : Cmd) (g : Machine -> Machine) (m : Machine).
Hypothesis same_trace : trace c m = trace c' m.
Hypothesis then_g : exec c m = g (exec c' m).

Lemma entered_after (p : Phase) (l : list Z) (k : nat) (d : Z) :
  (forall s, currentPhase (g s) = currentPhase s) ->
  (forall s, polls (g s) = polls s) ->
  (forall s, elapsedMs (g s) = elapsedMs s) ->
  entered c' p l k d m -> entered c p l k d m.
Proof.
  intros Hp Hk He [A1 A2 A3 A4 A5 A6 A7].
  constructor; rewrite ?same_trace, ?then_g, ?Hp, ?Hk, ?He; assumption.
Qed.

Lemma latching_after :
  (forall s, pedRequest (g s) = pedRequest s) ->
  latching c' m -> latching c m.
Proof.
  intros Hp [A1 A2].
  constructor; rewrite ?same_trace, ?then_g, ?Hp; assumption.
Qed.

Lemma ns_tallied_after (k : nat) :
  (forall s, trafficCountNS (g s) = trafficCountNS s) ->
  ns_tallied c' k m -> ns_tallied c k m.
Proof.
  intros Hn H R. rewrite same_trace, then_g, Hn. exact (H R).
Qed.

Lemma ew_tallied_after (k : nat) :
  (forall s, trafficCountEW (g s) = trafficCountEW s) ->
  ew_tallied c' k m -> ew_tallied c k m.
Proof.
  intros Hn H R. rewrite same_trace, then_g, Hn. exact (H R).
Qed.

End After.

Lemma trace_modify (f : Machine -> Machine) (m : Machine) :
  trace (modify f) m = [].
Proof. reflexivity. Qed.

Lemma exec_modify (f : Machine -> Machine) (m : Machine) :
  exec (modify f) m = f m.
Proof. reflexivity. Qed.

(** A green phase is its countdown followed by the reset of the count. *)
Lemma green_split (p : Phase) (f : Machine -> Z) (pre : Cmd) (loop : Z -> Cmd)
      (g : Machine -> Machine) (m : Machine) :
  let whole :=
    assign_currentPhase p ;; read f (fun t => pre ;; loop t ;; modify g) in
  let core := assign_currentPhase p ;; pre ;; loop (f (set_currentPhase p m)) in
  trace whole m = trace core m /\ exec whole m = g (exec core m).
Proof.
  cbv zeta. rewrite !trace_seq, !exec_seq.
  change (exec (assign_currentPhase p) m) with (set_currentPhase p m).
  set (m0 := set_currentPhase p m).
  change (trace (read f (fun t => pre ;; loop t ;; modify g)) m0)
    with (trace (pre ;; loop (f m0) ;; modify g) m0).
  change (exec (read f (fun t => pre ;; loop t ;; modify g)) m0)
    with (exec (pre ;; loop (f m0) ;; modify g) m0).
  rewrite !trace_seq, !exec_seq, trace_modify, exec_modify, app_nil_r.
  split; reflexivity.
Qed.

Section PhaseSummaries.

Variable env : nat -> Z -> bool.

Lemma phaseNsYellow_summary (m : Machine) :
  entered (phaseNsYellow env) PHASE_NS_YELLOW (down 3) 150 3000 m /\
  latching (phaseNsYellow env) m /\
  ns_tallied (phaseNsYellow env) 150 m /\
  ew_tallied (phaseNsYellow env) 150 m.
Proof.
  unfold phaseNsYellow. apply entered_assign.
  eapply effect_cast;
    [apply effect_for_down; intros; apply effect_nsYellowSecond
    | reflexivity | reflexivity | reflexivity].
Qed.

Lemma phaseEwYellow_summary (m : Machine) :
  entered (phaseEwYellow env) PHASE_EW_YELLOW (down 3) 150 3000 m /\
  latching (phaseEwYellow env) m /\
  ns_tallied (phaseEwYellow env) 150 m /\
  ew_tallied (phaseEwYellow env) 150 m.
Proof.
  unfold phaseEwYellow. apply entered_assign.
  eapply effect_cast;
    [apply effect_for_down; intros; apply effect_ewYellowSecond
    | reflexivity | reflexivity | reflexivity].
Qed.

Lemma phaseNsGreen_summary (m : Machine) :
  let T := Z.to_nat (computeNsGreenSeconds m) in
  entered (phaseNsGreen env) PHASE_NS_GREEN (down T) (T * 50)
          (Z.of_nat T * 1000) m /\
  latching (phaseNsGreen env) m /\
  trafficCountNS (exec (phaseNsGreen env) m) = 0 /\
  ew_tallied (phaseNsGreen env) (T * 50) m.
Proof.
  intros T.
  pose proof (green_split PHASE_NS_GREEN computeNsGreenSeconds setNsGreenState
                (fun t => for_down (Z.to_nat t)
                            (nsGreenSecond env BASE_GREEN_SEC
                               (extraSecsOf t BASE_GREEN_SEC)))
                (set_trafficCountNS 0) m) as S.
  cbv zeta beta in S.
  change (computeNsGreenSeconds (set_currentPhase PHASE_NS_GREEN m))
    with (computeNsGreenSeconds m) in S.
  fold T in S.
  set (core := assign_currentPhase PHASE_NS_GREEN ;; setNsGreenState ;;
               for_down T (nsGreenSecond env BASE_GREEN_SEC
                             (extraSecsOf (computeNsGreenSeconds m)
                                BASE_GREEN_SEC))) in S.
  change (trace (phaseNsGreen env) m = trace core m /\
          exec (phaseNsGreen env) m = set_trafficCountNS 0 (exec core m)) in S.
  destruct S as [St Sx].
  assert (C : entered core PHASE_NS_GREEN (down T) (T * 50)
                      (Z.of_nat T * 1000) m /\
              latching core m /\ ns_tallied core (T * 50) m /\
              ew_tallied core (T * 50) m).
  { apply entered_assign.
    eapply effect_cast;
      [eapply effect_seq;
       [eff | apply effect_for_down; intros; apply effect_nsGreenSecond]
      | reflexivity | reflexivity | lia]. }
  destruct C as (C1 & C2 & _ & C4).
  clearbody core.
  split; [|split; [|split]].
  - apply (entered_after _ core (set_trafficCountNS 0) m St Sx);
      [reflexivity | reflexivity | reflexivity | exact C1].
  - apply (latching_after _ core (set_trafficCountNS 0) m St Sx);
      [reflexivity | exact C2].
  - rewrite Sx. generalize (exec core m). reflexivity.
  - apply (ew_tallied_after _ core (set_trafficCountNS 0) m St Sx);
      [reflexivity | exact C4].
Qed.

Lemma phaseEwGreen_summary (m : Machine) :
  let T := Z.to_nat (computeEwGreenSeconds m) in
  entered (phaseEwGreen env) PHASE_EW_GREEN (down T) (T * 50)
          (Z.of_nat T * 1000) m /\
  latching (phaseEwGreen env) m /\
  trafficCountEW (exec (phaseEwGreen env) m) = 0 /\
  ns_tallied (phaseEwGreen env) (T * 50) m.
Proof.
  intros T.
  pose proof (green_split PHASE_EW_GREEN computeEwGreenSeconds setEwGreenState
                (fun t => for_down (Z.to_nat t)
                            (ewGreenSecond env BASE_GREEN_SEC
                               (extraSecsOf t BASE_GREEN_SEC)))
                (set_trafficCountEW 0) m) as S.
  cbv zeta beta in S.
  change (computeEwGreenSeconds (set_currentPhase PHASE_EW_GREEN m))
    with (computeEwGreenSeconds m) in S.
  fold T in S.
  set (core := assign_currentPhase PHASE_EW_GREEN ;; setEwGreenState ;;
               for_down T (ewGreenSecond env BASE_GREEN_SEC
                             (extraSecsOf (computeEwGreenSeconds m)
                                BASE_GREEN_SEC))) in S.
  change (trace (phaseEwGreen env) m = trace core m /\
          exec (phaseEwGreen env) m = set_trafficCountEW 0 (exec core m)) in S.
  destruct S as [St Sx].
  assert (C : entered core PHASE_EW_GREEN (down T) (T * 50)
                      (Z.of_nat T * 1000) m /\
              latching core m /\ ns_tallied core (T * 50) m /\
              ew_tallied core (T * 50) m).
  { apply entered_assign.
    eapply effect_cast;
      [eapply effect_seq;
       [eff | apply effect_for_down; intros; apply effect_ewGreenSecond]
      | reflexivity | reflexivity | lia]. }
  destruct C as (C1 & C2 & C3 & _).
  clearbody core.
  split; [|split; [|split]].
  - apply (entered_after _ core (set_trafficCountEW 0) m St Sx);
      [reflexivity | reflexivity | reflexivity | exact C1].
  - apply (latching_after _ core (set_trafficCountEW 0) m St Sx);
      [reflexivity | exact C2].
  - rewrite Sx. generalize (exec core m). reflexivity.
  - apply (ns_tallied_after _ core (set_trafficCountEW 0) m St Sx);
      [reflexivity | exact C3].
Qed.

End PhaseSummaries.

Section PedestrianSummary.

Variable env : nat -> Z -> bool.

Lemma pedestrianPhase_trace (m : Machine) :
  trace (pedestrianPhase env) m = trace (pedestrianCore env) m.
Proof.
  unfold pedestrianPhase, pedestrianCore.
  rewrite !trace_seq, ?exec_seq, trace_modify, app_nil_r. reflexivity.
Qed.

Lemma pedestrianPhase_exec (m : Machine) :
  exec (pedestrianPhase env) m = set_pedRequest false (exec (pedestrianCore env) m).
Proof.
  unfold pedestrianPhase, pedestrianCore.
  rewrite !exec_seq, exec_modify. reflexivity.
Qed.

Lemma pedestrianCore_summary (m : Machine) :
  entered (pedestrianCore env) PHASE_PED_GREEN (down 8) 400 8500 m /\
  latching (pedestrianCore env) m /\
  ns_tallied (pedestrianCore env) 400 m /\
  ew_tallied (pedestrianCore env) 400 m.
Proof.
  unfold pedestrianCore. apply entered_assign.
  eapply effect_cast;
    [eapply effect_seq;
     [eff | eapply effect_seq;
            [apply effect_for_down; intros; apply effect_pedSecond | eff]]
    | reflexivity | reflexivity | reflexivity].
Qed.

Lemma pedestrianPhase_summary (m : Machine) :
  entered (pedestrianPhase env) PHASE_PED_GREEN (down 8) 400 8500 m /\
  pedRequest (exec (pedestrianPhase env) m) = false /\
  ns_tallied (pedestrianPhase env) 400 m /\
  ew_tallied (pedestrianPhase env) 400 m.
Proof.
  pose proof (pedestrianPhase_trace m) as St.
  pose proof (pedestrianPhase_exec m) as Sx.
  destruct (pedestrianCore_summary m) as (C1 & _ & C3 & C4).
  split; [|split; [|split]].
  - apply (entered_after _ (pedestrianCore env) (set_pedRequest false) m St Sx);
      [reflexivity | reflexivity | reflexivity | exact C1].
  - rewrite Sx. generalize (exec (pedestrianCore env) m). reflexivity.
  - apply (ns_tallied_after _ (pedestrianCore env) (set_pedRequest false) m St Sx);
      [reflexivity | exact C3].
  - apply (ew_tallied_after _ (pedestrianCore env) (set_pedRequest false) m St Sx);
      [reflexivity | exact C4].
Qed.

Lemma phasePedestrianIfRequested_skipped (m : Machine) :
  pedRequest m = false ->
  exec (phasePedestrianIfRequested env) m = m /\
  trace (phasePedestrianIfRequested env) m = [].
Proof.
  intros H. unfold exec, trace, phasePedestrianIfRequested, ifte.
  rewrite H. split; reflexivity.
Qed.

Lemma phasePedestrianIfRequested_served (m : Machine) :
  pedRequest m = true ->
  exec (phasePedestrianIfRequested env) m = exec (pedestrianPhase env) m /\
  trace (phasePedestrianIfRequested env) m = trace (pedestrianPhase env) m.
Proof.
  intros H. unfold exec, trace, phasePedestrianIfRequested, ifte.
  rewrite H. split; reflexivity.
Qed.

(** The insertion point in one statement: a full pedestrian phase when the
    latch is set, nothing otherwise; the latch is clear afterwards. *)
Lemma phasePedestrianIfRequested_summary (m : Machine) :
  schedule (trace (phasePedestrianIfRequested env) m) =
    (if pedRequest m then countdown PHASE_PED_GREEN 8 else []) /\
  phases_of (trace (phasePedestrianIfRequested env) m) =
    (if pedRequest m then [PHASE_PED_GREEN] else []) /\
  pedRequest (exec (phasePedestrianIfRequested env) m) = false /\
  polls (exec (phasePedestrianIfRequested env) m) =
    (polls m + (if pedRequest m then 400 else 0))%nat.
Proof.
  destruct (pedRequest m) eqn:H.
  - destruct (phasePedestrianIfRequested_served m H) as [Hx Ht].
    destruct (pedestrianPhase_summary m) as ([A1 A2 A3 A4 A5 A6 A7] & B & _).
    rewrite Hx, Ht.
    split; [exact A3 | split; [exact A2 | split; [exact B | exact A4]]].
  - destruct (phasePedestrianIfRequested_skipped m H) as [Hx Ht].
    rewrite Hx, Ht.
    split; [reflexivity | split; [reflexivity | split; [exact H | lia]]].
Qed.

End PedestrianSummary.

(** C9.  Each yellow phase shows 3, 2, 1 and each served pedestrian phase
    shows 8, 7, ..., 1, one value per tick; a tick is 50 button polls 20 ms
    apart, so a yellow phase is exactly 150 polls and a pedestrian phase
    exactly 400, whatever the buttons do. *)
Theorem fixed_phase_durations (env : nat -> Z -> bool) (m : Machine) :
  (polls (exec (waitOneSecondWithButtons env) m) = (polls m + 50)%nat /\
   elapsedMs (exec (waitOneSecondWithButtons env) m) =
     elapsedMs m + 1000 +
     30 * pressesIn (trace (waitOneSecondWithButtons env) m)) /\
  (schedule (trace (phaseNsYellow env) m) =
     [(PHASE_NS_YELLOW, 3); (PHASE_NS_YELLOW, 2); (PHASE_NS_YELLOW, 1)] /\
   polls (exec (phaseNsYellow env) m) = (polls m + 3 * 50)%nat) /\
  (schedule (trace (phaseEwYellow env) m) =
     [(PHASE_EW_YELLOW, 3); (PHASE_EW_YELLOW, 2); (PHASE_EW_YELLOW, 1)] /\
   polls (exec (phaseEwYellow env) m) = (polls m + 3 * 50)%nat) /\
  (schedule (trace (pedestrianPhase env) m) =
     [(PHASE_PED_GREEN, 8); (PHASE_PED_GREEN, 7); (PHASE_PED_GREEN, 6);
      (PHASE_PED_GREEN, 5); (PHASE_PED_GREEN, 4); (PHASE_PED_GREEN, 3);
      (PHASE_PED_GREEN, 2); (PHASE_PED_GREEN, 1)] /\
   polls (exec (pedestrianPhase env) m) = (polls m + 8 * 50)%nat) /\
  schedule (trace (phasePedestrianIfRequested env) m) =
    (if pedRequest m then countdown PHASE_PED_GREEN 8 else []).
Proof.
  destruct (effect_waitOneSecondWithButtons env m) as [_ _ _ _ _ W6 W7 _ _].
  destruct (phaseNsYellow_summary env m) as ([_ _ N3 N4 _ _ _] & _).
  destruct (phaseEwYellow_summary env m) as ([_ _ E3 E4 _ _ _] & _).
  destruct (pedestrianPhase_summary env m) as ([_ _ P3 P4 _ _ _] & _).
  destruct (phasePedestrianIfRequested_summary env m) as (I1 & _).
  split; [exact (conj W6 W7)|].
  split; [exact (conj N3 N4)|].
  split; [exact (conj E3 E4)|].
  split; [exact (conj P3 P4)|].
  exact I1.
Qed.

(** * The request latch across the cycle *)

Lemma latching_seq (c1 c2 : Cmd) (m : Machine) :
  latching c1 m -> latching c2 (exec c1 m) -> latching (c1 ;; c2) m.
Proof.
  intros [A1 A2] [B1 B2]. constructor; rewrite exec_seq, trace_seq.
  - rewrite pedPressed_app, B1, A1, orb_assoc. reflexivity.
  - rewrite latchSeen_app. intros H. apply orb_true_iff in H.
    destruct H as [H|H]; [|exact (B2 H)].
    rewrite B1, (A2 H). reflexivity.
Qed.

Section Cycle.

Variable env : nat -> Z -> bool.

Lemma nsVehicle_summary (m : Machine) :
  phases_of (trace (nsVehicle env) m) = [PHASE_NS_GREEN; PHASE_NS_YELLOW] /\
  schedule (trace (nsVehicle env) m) =
    countdown PHASE_NS_GREEN (Z.to_nat (computeNsGreenSeconds m)) ++
    countdown PHASE_NS_YELLOW 3 /\
  latching (nsVehicle env) m.
Proof.
  unfold nsVehicle.
  destruct (phaseNsGreen_summary env m) as ([_ G2 G3 _ _ _ _] & GL & _).
  destruct (phaseNsYellow_summary env (exec (phaseNsGreen env) m))
    as ([_ Y2 Y3 _ _ _ _] & YL & _).
  rewrite trace_seq, phases_of_app, schedule_app, G2, G3, Y2, Y3.
  split; [reflexivity | split; [reflexivity |]].
  apply latching_seq; assumption.
Qed.

Lemma ewVehicle_summary (m : Machine) :
  phases_of (trace (ewVehicle env) m) = [PHASE_EW_GREEN; PHASE_EW_YELLOW] /\
  schedule (trace (ewVehicle env) m) =
    countdown PHASE_EW_GREEN (Z.to_nat (computeEwGreenSeconds m)) ++
    countdown PHASE_EW_YELLOW 3 /\
  latching (ewVehicle env) m.
Proof.
  unfold ewVehicle.
  destruct (phaseEwGreen_summary env m) as ([_ G2 G3 _ _ _ _] & GL & _).
  destruct (phaseEwYellow_summary env (exec (phaseEwGreen env) m))
    as ([_ Y2 Y3 _ _ _ _] & YL & _).
  rewrite trace_seq, phases_of_app, schedule_app, G2, G3, Y2, Y3.
  split; [reflexivity | split; [reflexivity |]].
  apply latching_seq; assumption.
Qed.

Lemma nsHalf_split (m : Machine) :
  trace (nsHalf env) m =
    trace (nsVehicle env) m ++
    trace (phasePedestrianIfRequested env) (exec (nsVehicle env) m) /\
  exec (nsHalf env) m =
    exec (phasePedestrianIfRequested env) (exec (nsVehicle env) m).
Proof.
  unfold nsHalf, nsVehicle.
  rewrite !trace_seq, !exec_seq, app_assoc. split; reflexivity.
Qed.

Lemma ewHalf_split (m : Machine) :
  trace (ewHalf env) m =
    trace (ewVehicle env) m ++
    trace (phasePedestrianIfRequested env) (exec (ewVehicle env) m) /\
  exec (ewHalf env) m =
    exec (phasePedestrianIfRequested env) (exec (ewVehicle env) m).
Proof.
  unfold ewHalf, ewVehicle.
  rewrite !trace_seq, !exec_seq, app_assoc. split; reflexivity.
Qed.

End Cycle.

(** C6.  Through one [loop] from any state: the first insertion point runs
    one full pedestrian phase exactly when the latch was set on entry or a
    pedestrian press edge was polled during NS green or NS yellow, and
    leaves the latch clear whatever was pressed meanwhile (presses polled
    during the pedestrian phase included); the second insertion point then
    runs one exactly when a press edge was polled during EW green or EW
    yellow, and again leaves the latch clear. *)
Theorem each_request_served_once (env : nat -> Z -> bool) (m : Machine) :
  let ped := phasePedestrianIfRequested env in
  let m1 := exec (nsVehicle env) m in
  let m2 := exec ped m1 in
  let m3 := exec (ewVehicle env) m2 in
  let m4 := exec ped m3 in
  exec (loop env) m = m4 /\
  phases_of (trace ped m1) =
    (if pedRequest m || pedPressed (trace (nsVehicle env) m)
     then [PHASE_PED_GREEN] else []) /\
  schedule (trace ped m1) =
    (if pedRequest m || pedPressed (trace (nsVehicle env) m)
     then countdown PHASE_PED_GREEN 8 else []) /\
  pedRequest m2 = false /\
  phases_of (trace ped m3) =
    (if pedPressed (trace (ewVehicle env) m2)
     then [PHASE_PED_GREEN] else []) /\
  schedule (trace ped m3) =
    (if pedPressed (trace (ewVehicle env) m2)
     then countdown PHASE_PED_GREEN 8 else []) /\
  pedRequest m4 = false.
Proof.
  cbv zeta.
  assert (X : exec (loop env) m =
              exec (phasePedestrianIfRequested env)
                (exec (ewVehicle env)
                   (exec (phasePedestrianIfRequested env)
                      (exec (nsVehicle env) m)))).
  { unfold loop. rewrite exec_seq.
    rewrite (proj2 (nsHalf_split env m)).
    rewrite (proj2 (ewHalf_split env _)). reflexivity. }
  destruct (nsVehicle_summary env m) as (_ & _ & [L1 _]).
  revert X L1.
  generalize (trace (nsVehicle env) m) as t1.
  generalize (exec (nsVehicle env) m) as m1.
  intros m1 t1 X L1.
  destruct (phasePedestrianIfRequested_summary env m1) as (S1 & P1 & R1 & _).
  revert X S1 P1 R1.
  generalize (trace (phasePedestrianIfRequested env) m1) as t2.
  generalize (exec (phasePedestrianIfRequested env) m1) as m2.
  intros m2 t2 X S1 P1 R1.
  destruct (ewVehicle_summary env m2) as (_ & _ & [L3 _]).
  revert X L3.
  generalize (trace (ewVehicle env) m2) as t3.
  generalize (exec (ewVehicle env) m2) as m3.
  intros m3 t3 X L3.
  destruct (phasePedestrianIfRequested_summary env m3) as (S3 & P3 & R3 & _).
  rewrite R1 in L3. cbn [orb] in L3.
  rewrite L1 in S1, P1. rewrite L3 in S3, P3.
  split; [exact X|].
  split; [exact P1|]. split; [exact S1|]. split; [exact R1|].
  split; [exact P3|]. split; [exact S3|]. exact R3.
Qed.

Section HalfCycles.

Variable env : nat -> Z -> bool.

(** A half of [loop] entered with the request already latched, or latched
    on the way, shows its green and yellow countdowns in full and then the
    pedestrian countdown, and ends with the latch clear. *)
Lemma nsHalf_with_request (m : Machine) :
  pedRequest (exec (nsVehicle env) m) = true ->
  phases_of (trace (nsHalf env) m) =
    [PHASE_NS_GREEN; PHASE_NS_YELLOW; PHASE_PED_GREEN] /\
  schedule (trace (nsHalf env) m) =
    countdown PHASE_NS_GREEN (Z.to_nat (computeNsGreenSeconds m)) ++
    countdown PHASE_NS_YELLOW 3 ++ countdown PHASE_PED_GREEN 8 /\
  pedRequest (exec (nsHalf env) m) = false.
Proof.
  intros H.
  destruct (nsHalf_split env m) as [Ht Hx].
  destruct (nsVehicle_summary env m) as (V1 & V2 & _).
  destruct (phasePedestrianIfRequested_summary env (exec (nsVehicle env) m))
    as (S1 & P1 & R1 & _).
  rewrite H in S1, P1.
  rewrite Ht, Hx, phases_of_app, schedule_app, V1, V2, S1, P1, R1.
  rewrite <- app_assoc. repeat split; reflexivity.
Qed.

Lemma ewHalf_with_request (m : Machine) :
  pedRequest (exec (ewVehicle env) m) = true ->
  phases_of (trace (ewHalf env) m) =
    [PHASE_EW_GREEN; PHASE_EW_YELLOW; PHASE_PED_GREEN] /\
  schedule (trace (ewHalf env) m) =
    countdown PHASE_EW_GREEN (Z.to_nat (computeEwGreenSeconds m)) ++
    countdown PHASE_EW_YELLOW 3 ++ countdown PHASE_PED_GREEN 8 /\
  pedRequest (exec (ewHalf env) m) = false.
Proof.
  intros H.
  destruct (ewHalf_split env m) as [Ht Hx].
  destruct (ewVehicle_summary env m) as (V1 & V2 & _).
  destruct (phasePedestrianIfRequested_summary env (exec (ewVehicle env) m))
    as (S1 & P1 & R1 & _).
  rewrite H in S1, P1.
  rewrite Ht, Hx, phases_of_app, schedule_app, V1, V2, S1, P1, R1.
  rewrite <- app_assoc. repeat split; reflexivity.
Qed.

End HalfCycles.

(** C7.  With the latch already set, any number of further polls, whatever
    presses they see, leave it set, through a tick and through the vehicle
    phases as well; and the half cycle that follows holds exactly one
    pedestrian phase, after which the latch is clear: the extra presses
    schedule nothing more. *)
Theorem latch_idempotent (env : nat -> Z -> bool) (m : Machine) (k : nat) :
  pedRequest m = true ->
  pedRequest (exec (repeat_n k (readButtons env)) m) = true /\
  pedRequest (exec (waitOneSecondWithButtons env) m) = true /\
  pedRequest (exec (nsVehicle env) m) = true /\
  pedRequest (exec (ewVehicle env) m) = true /\
  (phases_of (trace (nsHalf env) m) =
     [PHASE_NS_GREEN; PHASE_NS_YELLOW; PHASE_PED_GREEN] /\
   pedRequest (exec (nsHalf env) m) = false) /\
  (phases_of (trace (ewHalf env) m) =
     [PHASE_EW_GREEN; PHASE_EW_YELLOW; PHASE_PED_GREEN] /\
   pedRequest (exec (ewHalf env) m) = false).
Proof.
  intros H.
  destruct (effect_repeat_n (readButtons env) 1 0 k (effect_readButtons env) m)
    as [_ _ _ A _ _ _ _ _].
  destruct (effect_waitOneSecondWithButtons env m) as [_ _ _ B _ _ _ _ _].
  destruct (nsVehicle_summary env m) as (_ & _ & [C _]).
  destruct (ewVehicle_summary env m) as (_ & _ & [D _]).
  rewrite H in A, B, C, D. cbn [orb] in A, B, C, D.
  destruct (nsHalf_with_request env m C) as (N1 & _ & N3).
  destruct (ewHalf_with_request env m D) as (W1 & _ & W3).
  split; [exact A|]. split; [exact B|]. split; [exact C|]. split; [exact D|].
  split; [exact (conj N1 N3) | exact (conj W1 W3)].
Qed.

Lemma latch_idempotent_witness :
  pedRequest latched_start = true /\
  pedRequest (exec (repeat_n 6 (readButtons bouncing)) latched_start) = true.
Proof.
  split; [reflexivity|].
  apply (latch_idempotent bouncing latched_start 6). reflexivity.
Defined.

(** * The counts stay in range *)

Lemma poll_ok_counted (e : Event) : poll_ok e -> counted_iff_stopped e.
Proof.
  destruct e as [m|pin level m|r m|ns ew ped b a]; try exact (fun _ => I).
  cbn [poll_ok counted_iff_stopped nsAccepted ewAccepted nsPress ewPress].
  intros [N W].
  destruct (just_pressed ns (lastNsBtnState b)), (isNsRed b),
    (just_pressed ew (lastEwBtnState b)), (isEwRed b);
    cbn [andb Z.b2z] in N, W; split; first [lia | left; split; [reflexivity | lia]
                                           | right; split; [reflexivity | lia]].
Qed.

Lemma setup_effect (m : Machine) : effect setup [] 0 2000 m.
Proof. unfold setup, pinMode. eff. Qed.

Section Bounds.

Variable env : nat -> Z -> bool.

Lemma in_range_within (a b : Z) (k : nat) (m : Machine) :
  within a b m -> a + Z.of_nat k <= INT_MAX -> b + Z.of_nat k <= INT_MAX ->
  in_range (Z.of_nat k) m.
Proof. unfold within, in_range. lia. Qed.

Lemma green_ticks_NS (m : Machine) :
  (Z.of_nat (Z.to_nat (computeNsGreenSeconds m) * 50) <= 2000).
Proof. destruct (computeNsGreenSeconds_range m) as [H|[H|[H|H]]]; rewrite H; vm_compute; congruence. Qed.

Lemma green_ticks_EW (m : Machine) :
  (Z.of_nat (Z.to_nat (computeEwGreenSeconds m) * 50) <= 2000).
Proof. destruct (computeEwGreenSeconds_range m) as [H|[H|[H|H]]]; rewrite H; vm_compute; congruence. Qed.

Lemma bounded_phaseNsGreen (a b : Z) :
  a <= 10000 -> b <= 10000 ->
  hoare (within a b) (phaseNsGreen env) poll_ok (within 0 (b + 2000)).
Proof.
  intros Ha Hb m Hm.
  destruct (phaseNsGreen_summary env m) as ([_ _ _ _ _ B P] & _ & Z0 & T).
  pose proof (green_ticks_NS m) as K.
  assert (R : in_range (Z.of_nat (Z.to_nat (computeNsGreenSeconds m) * 50)) m)
    by (unfold within, in_range, INT_MAX in *; lia).
  split; [exact (P R)|].
  specialize (T R). unfold within in *. rewrite Z0, T. lia.
Qed.

Lemma bounded_phaseEwGreen (a b : Z) :
  a <= 10000 -> b <= 10000 ->
  hoare (within a b) (phaseEwGreen env) poll_ok (within (a + 2000) 0).
Proof.
  intros Ha Hb m Hm.
  destruct (phaseEwGreen_summary env m) as ([_ _ _ _ _ B P] & _ & Z0 & T).
  pose proof (green_ticks_EW m) as K.
  assert (R : in_range (Z.of_nat (Z.to_nat (computeEwGreenSeconds m) * 50)) m)
    by (unfold within, in_range, INT_MAX in *; lia).
  split; [exact (P R)|].
  specialize (T R). unfold within in *. rewrite Z0, T. lia.
Qed.

Lemma bounded_phaseNsYellow (a b : Z) :
  a <= 10000 -> b <= 10000 ->
  hoare (within a b) (phaseNsYellow env) poll_ok (within (a + 150) (b + 150)).
Proof.
  intros Ha Hb m Hm.
  destruct (phaseNsYellow_summary env m) as ([_ _ _ _ _ B P] & _ & TN & TW).
  assert (R : in_range (Z.of_nat 150) m)
    by (unfold within, in_range, INT_MAX in *; lia).
  split; [exact (P R)|].
  specialize (TN R). specialize (TW R). unfold within in *.
  rewrite TN, TW. lia.
Qed.

Lemma bounded_phaseEwYellow (a b : Z) :
  a <= 10000 -> b <= 10000 ->
  hoare (within a b) (phaseEwYellow env) poll_ok (within (a + 150) (b + 150)).
Proof.
  intros Ha Hb m Hm.
  destruct (phaseEwYellow_summary env m) as ([_ _ _ _ _ B P] & _ & TN & TW).
  assert (R : in_range (Z.of_nat 150) m)
    by (unfold within, in_range, INT_MAX in *; lia).
  split; [exact (P R)|].
  specialize (TN R). specialize (TW R). unfold within in *.
  rewrite TN, TW. lia.
Qed.

Lemma bounded_phasePedestrianIfRequested (a b : Z) :
  a <= 10000 -> b <= 10000 ->
  hoare (within a b) (phasePedestrianIfRequested env) poll_ok
        (within (a + 400) (b + 400)).
Proof.
  intros Ha Hb m Hm. destruct (pedRequest m) eqn:H.
  - destruct (phasePedestrianIfRequested_served env m H) as [Hx Ht].
    destruct (pedestrianPhase_summary env m) as ([_ _ _ _ _ B P] & _ & TN & TW).
    assert (R : in_range (Z.of_nat 400) m)
      by (unfold within, in_range, INT_MAX in *; lia).
    rewrite Ht, Hx. split; [exact (P R)|].
    specialize (TN R). specialize (TW R). unfold within in *.
    rewrite TN, TW. lia.
  - destruct (phasePedestrianIfRequested_skipped env m H) as [Hx Ht].
    rewrite Ht, Hx. split; [constructor | unfold within in *; lia].
Qed.

Lemma bounded_loop : hoare loop_start (loop env) poll_ok loop_start.
Proof.
  unfold loop, nsHalf, ewHalf, loop_start.
  eapply hoare_seq.
  { eapply hoare_seq; [apply (bounded_phaseNsGreen 3100 550); lia|].
    eapply hoare_seq; [apply (bounded_phaseNsYellow 0 (550 + 2000)); lia|].
    apply (bounded_phasePedestrianIfRequested (0 + 150) (550 + 2000 + 150));
      lia. }
  eapply hoare_seq;
    [apply (bounded_phaseEwGreen (0 + 150 + 400) (550 + 2000 + 150 + 400)); lia|].
  eapply hoare_seq;
    [apply (bounded_phaseEwYellow (0 + 150 + 400 + 2000) 0); lia|].
  eapply hoare_conseq;
    [| |apply (bounded_phasePedestrianIfRequested
                 (0 + 150 + 400 + 2000 + 150) (0 + 150)); lia].
  - auto.
  - unfold within. intros m. lia.
Qed.

Lemma bounded_setup : hoare (within 0 0) setup poll_ok loop_start.
Proof.
  intros m Hm. destruct (setup_effect m) as [_ _ _ _ _ _ _ _ C].
  assert (R : in_range (Z.of_nat 0) m)
    by (unfold within, in_range, INT_MAX in *; lia).
  destruct (C R) as (N & W & P). split; [exact P|].
  destruct (setup_effect m) as [_ _ _ _ _ _ _ [B1 B2] _].
  unfold loop_start, within in *. lia.
Qed.

Lemma bounded_sketch (n : nat) :
  hoare (within 0 0) (sketch env n) poll_ok loop_start.
Proof.
  unfold sketch. eapply hoare_seq; [apply bounded_setup|].
  apply hoare_repeat_n. apply bounded_loop.
Qed.

Lemma within_power_on : within 0 0 power_on.
Proof. unfold within. simpl. lia. Qed.

End Bounds.

(** C2.  In every run, at every call of [readButtons]: when the NS button
    shows a press edge, [trafficCountNS] goes up by exactly one if NS is
    stopped at that moment ([isNsRed]) and is left alone if it is not;
    without a press edge it is left alone.  The same for the EW button,
    [trafficCountEW] and [isEwRed]. *)
Theorem count_accepted_iff_stopped (env : nat -> Z -> bool) (n : nat) :
  Forall counted_iff_stopped (trace (sketch env n) power_on).
Proof.
  eapply Forall_impl; [exact poll_ok_counted|].
  exact (proj1 (bounded_sketch env n power_on within_power_on)).
Qed.

(** * A count is frozen while its own road has green *)

Section Frozen.

Variable env : nat -> Z -> bool.
Variable P : Machine -> Prop.
Hypothesis P_lcd : forall d m, P m -> P (set_lcd d m).
Hypothesis P_clock : forall t m, P m -> P (set_elapsedMs t m).
Hypothesis P_gpio : forall g m, P m -> P (set_gpio g m).
Hypothesis P_poll : forall m, P m -> P (exec (readButtons env) m).

Lemma frozen_lcd_do (f : Lcd -> Lcd) : hoare P (lcd_do f) (ev_all P) P.
Proof. apply hoare_modify. intros m Hm. apply P_lcd. exact Hm. Qed.

Lemma frozen_delay (ms : Z) : hoare P (delay ms) (ev_all P) P.
Proof. apply hoare_modify. intros m Hm. apply P_clock. exact Hm. Qed.

Lemma frozen_digitalWrite (pin : Z) (level : bool) :
  hoare P (digitalWrite pin level) (ev_all P) P.
Proof.
  unfold digitalWrite. eapply hoare_seq.
  - apply hoare_modify. intros m Hm. apply P_gpio. exact Hm.
  - apply hoare_emit. intros m Hm. constructor; [exact Hm | constructor].
Qed.

Lemma frozen_refresh (r : Z) : hoare P (emit (EvRefresh r)) (ev_all P) P.
Proof.
  apply hoare_emit. intros m Hm. constructor; [exact Hm | constructor].
Qed.

Lemma frozen_readButtons : hoare P (readButtons env) (ev_all P) P.
Proof.
  intros m Hm. rewrite readButtons_trace. pose proof (P_poll m Hm) as Hm'.
  split; [|exact Hm'].
  constructor; [|constructor].
  constructor; [exact Hm | constructor; [exact Hm' | constructor]].
Qed.

Lemma frozen_waitOneSecondWithButtons :
  hoare P (waitOneSecondWithButtons env) (ev_all P) P.
Proof.
  apply hoare_repeat_n. eapply hoare_seq;
    [apply frozen_readButtons | apply frozen_delay].
Qed.

End Frozen.

Ltac frozen_build :=
  lazymatch goal with
  | |- hoare _ (_ ;; _) _ _ => eapply hoare_seq; [frozen_build | frozen_build]
  | |- hoare _ (lcd_do _) _ _ => apply frozen_lcd_do
  | |- hoare _ (delay _) _ _ => apply frozen_delay
  | |- hoare _ (digitalWrite _ _) _ _ => apply frozen_digitalWrite
  | |- hoare _ (emit (EvRefresh _)) _ _ => apply frozen_refresh
  | |- hoare _ (waitOneSecondWithButtons _) _ _ =>
      apply frozen_waitOneSecondWithButtons
  | |- hoare _ (read _ _) _ _ =>
      apply hoare_read_any; intro; apply frozen_lcd_do
  end.

Ltac frozen_all :=
  unfold nsGreenSecond, ewGreenSecond, setNsGreenState, setEwGreenState;
  unfold nsGreenDisplay, ewGreenDisplay;
  unfold setAllVehicleRed;
  frozen_build.

Section FrozenCounts.

Variable env : nat -> Z -> bool.

Lemma ns_frozen_poll (c0 : Z) (m : Machine) :
  ns_frozen c0 m -> ns_frozen c0 (exec (readButtons env) m).
Proof.
  intros [Hp Hc]. destruct (readButtons_spec env m) as (A & _ & _ & _ & B & _).
  split; [congruence|]. rewrite B. unfold isNsRed. rewrite Hp.
  cbn [Phase_eqb orb]. rewrite andb_false_r. exact Hc.
Qed.

Lemma ew_frozen_poll (c0 : Z) (m : Machine) :
  ew_frozen c0 m -> ew_frozen c0 (exec (readButtons env) m).
Proof.
  intros [Hp Hc].
  destruct (readButtons_spec env m) as (A & _ & _ & _ & _ & B & _).
  split; [congruence|]. rewrite B. unfold isEwRed. rewrite Hp.
  cbn [Phase_eqb orb]. rewrite andb_false_r. exact Hc.
Qed.

(** Throughout [phaseNsGreen], up to its last statement, [trafficCountNS]
    is what it was on entry. *)
Lemma phaseNsGreen_frozen (m : Machine) :
  Forall (ev_all (fun s => trafficCountNS s = trafficCountNS m))
         (trace (phaseNsGreen env) m).
Proof.
  assert (H : hoare (fun s => trafficCountNS s = trafficCountNS m)
                    (phaseNsGreen env)
                    (ev_all (ns_frozen (trafficCountNS m)))
                    (fun _ => True)).
  { unfold phaseNsGreen.
    eapply hoare_seq with (Q := ns_frozen (trafficCountNS m)).
    - unfold assign_currentPhase. eapply hoare_seq.
      + apply hoare_modify with (Q := ns_frozen (trafficCountNS m)).
        intros s Hs. split; [reflexivity | exact Hs].
      + apply hoare_emit. intros s Hs. constructor; [exact Hs | constructor].
    - apply hoare_read_any; intros totalSecs. cbv zeta.
      assert (L : forall d s, ns_frozen (trafficCountNS m) s ->
                              ns_frozen (trafficCountNS m) (set_lcd d s))
        by (intros d s Hs; exact Hs).
      assert (C : forall t s, ns_frozen (trafficCountNS m) s ->
                              ns_frozen (trafficCountNS m) (set_elapsedMs t s))
        by (intros t s Hs; exact Hs).
      assert (G : forall g s, ns_frozen (trafficCountNS m) s ->
                              ns_frozen (trafficCountNS m) (set_gpio g s))
        by (intros g s Hs; exact Hs).
      pose proof (ns_frozen_poll (trafficCountNS m)) as R.
      eapply hoare_seq with (Q := ns_frozen (trafficCountNS m));
        [frozen_all; assumption|].
      eapply hoare_seq with (Q := ns_frozen (trafficCountNS m)).
      + apply (hoare_for_down _ (fun _ => ns_frozen (trafficCountNS m))).
        intros k _. frozen_all; assumption.
      + apply hoare_modify. auto. }
  destruct (H m eq_refl) as [T _].
  eapply Forall_impl; [|exact T].
  intros e He. eapply Forall_impl; [|exact He]. intros s [_ Hs]. exact Hs.
Qed.

Lemma phaseEwGreen_frozen (m : Machine) :
  Forall (ev_all (fun s => trafficCountEW s = trafficCountEW m))
         (trace (phaseEwGreen env) m).
Proof.
  assert (H : hoare (fun s => trafficCountEW s = trafficCountEW m)
                    (phaseEwGreen env)
                    (ev_all (ew_frozen (trafficCountEW m)))
                    (fun _ => True)).
  { unfold phaseEwGreen.
    eapply hoare_seq with (Q := ew_frozen (trafficCountEW m)).
    - unfold assign_currentPhase. eapply hoare_seq.
      + apply hoare_modify with (Q := ew_frozen (trafficCountEW m)).
        intros s Hs. split; [reflexivity | exact Hs].
      + apply hoare_emit. intros s Hs. constructor; [exact Hs | constructor].
    - apply hoare_read_any; intros totalSecs. cbv zeta.
      assert (L : forall d s, ew_frozen (trafficCountEW m) s ->
                              ew_frozen (trafficCountEW m) (set_lcd d s))
        by (intros d s Hs; exact Hs).
      assert (C : forall t s, ew_frozen (trafficCountEW m) s ->
                              ew_frozen (trafficCountEW m) (set_elapsedMs t s))
        by (intros t s Hs; exact Hs).
      assert (G : forall g s, ew_frozen (trafficCountEW m) s ->
                              ew_frozen (trafficCountEW m) (set_gpio g s))
        by (intros g s Hs; exact Hs).
      pose proof (ew_frozen_poll (trafficCountEW m)) as R.
      eapply hoare_seq with (Q := ew_frozen (trafficCountEW m));
        [frozen_all; assumption|].
      eapply hoare_seq with (Q := ew_frozen (trafficCountEW m)).
      + apply (hoare_for_down _ (fun _ => ew_frozen (trafficCountEW m))).
        intros k _. frozen_all; assumption.
      + apply hoare_modify. auto. }
  destruct (H m eq_refl) as [T _].
  eapply Forall_impl; [|exact T].
  intros e He. eapply Forall_impl; [|exact He]. intros s [_ Hs]. exact Hs.
Qed.

End FrozenCounts.

Section CountsThroughLoop.

Variable env : nat -> Z -> bool.

Lemma counts_phasePedestrianIfRequested (m : Machine) :
  in_range 400 m ->
  trafficCountNS (exec (phasePedestrianIfRequested env) m) =
    trafficCountNS m +
    tally nsAccepted (trace (phasePedestrianIfRequested env) m) /\
  trafficCountEW (exec (phasePedestrianIfRequested env) m) =
    trafficCountEW m +
    tally ewAccepted (trace (phasePedestrianIfRequested env) m).
Proof.
  intros R. destruct (pedRequest m) eqn:H.
  - destruct (phasePedestrianIfRequested_served env m H) as [Hx Ht].
    destruct (pedestrianPhase_summary env m) as (_ & _ & TN & TW).
    rewrite Ht, Hx. split; [exact (TN R) | exact (TW R)].
  - destruct (phasePedestrianIfRequested_skipped env m H) as [Hx Ht].
    rewrite Ht, Hx. cbn [tally]. lia.
Qed.

Lemma counts_phaseNsGreen (a b : Z) (m : Machine) :
  a <= 10000 -> b <= 10000 -> within a b m ->
  Forall (ev_all (fun s => trafficCountNS s = trafficCountNS m))
         (trace (phaseNsGreen env) m) /\
  trafficCountNS (exec (phaseNsGreen env) m) = 0 /\
  trafficCountEW (exec (phaseNsGreen env) m) =
    trafficCountEW m + tally ewAccepted (trace (phaseNsGreen env) m).
Proof.
  intros Ha Hb Hm.
  destruct (phaseNsGreen_summary env m) as (_ & _ & Z0 & T).
  pose proof (green_ticks_NS m) as K.
  assert (R : in_range (Z.of_nat (Z.to_nat (computeNsGreenSeconds m) * 50)) m)
    by (unfold within, in_range, INT_MAX in *; lia).
  split; [apply phaseNsGreen_frozen | split; [exact Z0 | exact (T R)]].
Qed.

Lemma counts_phaseEwGreen (a b : Z) (m : Machine) :
  a <= 10000 -> b <= 10000 -> within a b m ->
  Forall (ev_all (fun s => trafficCountEW s = trafficCountEW m))
         (trace (phaseEwGreen env) m) /\
  trafficCountEW (exec (phaseEwGreen env) m) = 0 /\
  trafficCountNS (exec (phaseEwGreen env) m) =
    trafficCountNS m + tally nsAccepted (trace (phaseEwGreen env) m).
Proof.
  intros Ha Hb Hm.
  destruct (phaseEwGreen_summary env m) as (_ & _ & Z0 & T).
  pose proof (green_ticks_EW m) as K.
  assert (R : in_range (Z.of_nat (Z.to_nat (computeEwGreenSeconds m) * 50)) m)
    by (unfold within, in_range, INT_MAX in *; lia).
  split; [apply phaseEwGreen_frozen | split; [exact Z0 | exact (T R)]].
Qed.

Lemma counts_phaseNsYellow (a b : Z) (m : Machine) :
  a <= 10000 -> b <= 10000 -> within a b m ->
  trafficCountNS (exec (phaseNsYellow env) m) =
    trafficCountNS m + tally nsAccepted (trace (phaseNsYellow env) m) /\
  trafficCountEW (exec (phaseNsYellow env) m) =
    trafficCountEW m + tally ewAccepted (trace (phaseNsYellow env) m).
Proof.
  intros Ha Hb Hm.
  destruct (phaseNsYellow_summary env m) as (_ & _ & TN & TW).
  assert (R : in_range (Z.of_nat 150) m)
    by (unfold within, in_range, INT_MAX in *; lia).
  split; [exact (TN R) | exact (TW R)].
Qed.

Lemma counts_phaseEwYellow (a b : Z) (m : Machine) :
  a <= 10000 -> b <= 10000 -> within a b m ->
  trafficCountNS (exec (phaseEwYellow env) m) =
    trafficCountNS m + tally nsAccepted (trace (phaseEwYellow env) m) /\
  trafficCountEW (exec (phaseEwYellow env) m) =
    trafficCountEW m + tally ewAccepted (trace (phaseEwYellow env) m).
Proof.
  intros Ha Hb Hm.
  destruct (phaseEwYellow_summary env m) as (_ & _ & TN & TW).
  assert (R : in_range (Z.of_nat 150) m)
    by (unfold within, in_range, INT_MAX in *; lia).
  split; [exact (TN R) | exact (TW R)].
Qed.

Lemma loop_exec (m : Machine) :
  exec (loop env) m =
  exec (phasePedestrianIfRequested env)
    (exec (phaseEwYellow env)
       (exec (phaseEwGreen env)
          (exec (phasePedestrianIfRequested env)
             (exec (phaseNsYellow env) (exec (phaseNsGreen env) m))))).
Proof. unfold loop, nsHalf, ewHalf. rewrite !exec_seq. reflexivity. Qed.

End CountsThroughLoop.

(** C5.  From the start of any [loop] of any run, phase by phase:
    [trafficCountNS] keeps its entry value in every state of
    [phaseNsGreen] and is 0 when that phase returns; in NS yellow, in the
    EW phases and in both pedestrian insertions it moves only by the
    accepted NS presses polled there, so it is never cleared.  The same
    for [trafficCountEW] with the roles of the roads exchanged. *)
Theorem counts_cleared_only_by_own_green (env : nat -> Z -> bool) (n : nat) :
  let ped := phasePedestrianIfRequested env in
  let m0 := exec (sketch env n) power_on in
  let m1 := exec (phaseNsGreen env) m0 in
  let m2 := exec (phaseNsYellow env) m1 in
  let m3 := exec ped m2 in
  let m4 := exec (phaseEwGreen env) m3 in
  let m5 := exec (phaseEwYellow env) m4 in
  let m6 := exec ped m5 in
  exec (loop env) m0 = m6 /\
  (Forall (ev_all (fun s => trafficCountNS s = trafficCountNS m0))
          (trace (phaseNsGreen env) m0) /\
   trafficCountNS m1 = 0 /\
   trafficCountEW m1 =
     trafficCountEW m0 + tally ewAccepted (trace (phaseNsGreen env) m0)) /\
  (trafficCountNS m2 =
     trafficCountNS m1 + tally nsAccepted (trace (phaseNsYellow env) m1) /\
   trafficCountEW m2 =
     trafficCountEW m1 + tally ewAccepted (trace (phaseNsYellow env) m1)) /\
  (trafficCountNS m3 = trafficCountNS m2 + tally nsAccepted (trace ped m2) /\
   trafficCountEW m3 = trafficCountEW m2 + tally ewAccepted (trace ped m2)) /\
  (Forall (ev_all (fun s => trafficCountEW s = trafficCountEW m3))
          (trace (phaseEwGreen env) m3) /\
   trafficCountEW m4 = 0 /\
   trafficCountNS m4 =
     trafficCountNS m3 + tally nsAccepted (trace (phaseEwGreen env) m3)) /\
  (trafficCountNS m5 =
     trafficCountNS m4 + tally nsAccepted (trace (phaseEwYellow env) m4) /\
   trafficCountEW m5 =
     trafficCountEW m4 + tally ewAccepted (trace (phaseEwYellow env) m4)) /\
  (trafficCountNS m6 = trafficCountNS m5 + tally nsAccepted (trace ped m5) /\
   trafficCountEW m6 = trafficCountEW m5 + tally ewAccepted (trace ped m5)).
Proof.
  cbv zeta.
  pose proof (proj2 (bounded_sketch env n power_on within_power_on)) as B0.
  unfold loop_start in B0.
  revert B0. generalize (exec (sketch env n) power_on) as m0. intros m0 B0.
  assert (I3100 : 3100 <= 10000) by lia.
  assert (I550 : 550 <= 10000) by lia.
  pose proof (proj2 (bounded_phaseNsGreen env 3100 550 I3100 I550 m0 B0)) as B1.
  assert (I0 : 0 <= 10000) by lia.
  assert (I2550 : 550 + 2000 <= 10000) by lia.
  pose proof (proj2 (bounded_phaseNsYellow env 0 (550 + 2000) I0 I2550 _ B1))
    as B2.
  assert (I150 : 0 + 150 <= 10000) by lia.
  assert (I2700 : 550 + 2000 + 150 <= 10000) by lia.
  pose proof (proj2 (bounded_phasePedestrianIfRequested env _ _ I150 I2700 _ B2))
    as B3.
  assert (J1 : 0 + 150 + 400 <= 10000) by lia.
  assert (J2 : 550 + 2000 + 150 + 400 <= 10000) by lia.
  pose proof (proj2 (bounded_phaseEwGreen env _ _ J1 J2 _ B3)) as B4.
  assert (J3 : 0 + 150 + 400 + 2000 <= 10000) by lia.
  pose proof (proj2 (bounded_phaseEwYellow env _ _ J3 I0 _ B4)) as B5.
  split; [apply loop_exec|].
  split; [exact (counts_phaseNsGreen env _ _ _ I3100 I550 B0)|].
  split; [exact (counts_phaseNsYellow env _ _ _ I0 I2550 B1)|].
  split.
  { apply counts_phasePedestrianIfRequested.
    revert B2. generalize (exec (phaseNsYellow env)
                             (exec (phaseNsGreen env) m0)).
    intros s. unfold within, in_range, INT_MAX. lia. }
  split; [exact (counts_phaseEwGreen env _ _ _ J1 J2 B3)|].
  split; [exact (counts_phaseEwYellow env _ _ _ J3 I0 B4)|].
  apply counts_phasePedestrianIfRequested.
  revert B5. generalize (exec (phaseEwYellow env)
                           (exec (phaseEwGreen env)
                              (exec (phasePedestrianIfRequested env)
                                 (exec (phaseNsYellow env)
                                    (exec (phaseNsGreen env) m0))))).
  intros s. unfold within, in_range, INT_MAX. lia.
Qed.

(** * The display *)

Lemma append_empty_r (s : string) : (s ++ EmptyString)%string = s.
Proof. induction s as [|c s IH]; simpl; [reflexivity | rewrite IH; reflexivity]. Qed.

Lemma append_assoc (a b c : string) :
  ((a ++ b) ++ c)%string = (a ++ (b ++ c))%string.
Proof. induction a as [|x a IH]; simpl; [reflexivity | rewrite IH; reflexivity]. Qed.

Lemma length_append (a b : string) :
  String.length (a ++ b) = (String.length a + String.length b)%nat.
Proof. induction a as [|x a IH]; simpl; [reflexivity | rewrite IH; reflexivity]. Qed.

Lemma place_empty (s : string) : place s EmptyString = s.
Proof. induction s as [|c s IH]; simpl; [reflexivity | rewrite IH; reflexivity]. Qed.

(** Writing at the end of a row appends to it. *)
Lemma overwrite_end (a b : string) :
  overwrite (String.length a) b a = (a ++ b)%string.
Proof.
  induction a as [|x a IH]; simpl; [apply place_empty | rewrite IH; reflexivity].
Qed.

Lemma prints_row0 (l : list string) (d : Lcd) :
  cursorRow d = O -> cursorCol d = String.length (row0 d) ->
  prints l d =
  mkLcd (row0 d ++ cat l) (row1 d) (String.length (row0 d ++ cat l)) 0.
Proof.
  revert d. induction l as [|s l IH]; intros [r0 r1 col row] Hr Hc;
    simpl in Hr, Hc; subst row col.
  - cbn [prints fold_left cat fold_right row0 row1].
    rewrite append_empty_r. reflexivity.
  - change (prints (s :: l) (mkLcd r0 r1 (String.length r0) 0))
      with (prints l (lcd_print s (mkLcd r0 r1 (String.length r0) 0))).
    unfold lcd_print. cbn [cursorRow cursorCol row0 row1].
    rewrite overwrite_end, IH; cbn [row0 row1 cursorRow cursorCol cat fold_right].
    + rewrite append_assoc. reflexivity.
    + reflexivity.
    + rewrite length_append. reflexivity.
Qed.

Lemma prints_row1 (l : list string) (d : Lcd) :
  cursorRow d = 1%nat -> cursorCol d = String.length (row1 d) ->
  prints l d =
  mkLcd (row0 d) (row1 d ++ cat l) (String.length (row1 d ++ cat l)) 1.
Proof.
  revert d. induction l as [|s l IH]; intros [r0 r1 col row] Hr Hc;
    simpl in Hr, Hc; subst row col.
  - cbn [prints fold_left cat fold_right row0 row1].
    rewrite append_empty_r. reflexivity.
  - change (prints (s :: l) (mkLcd r0 r1 (String.length r1) 1))
      with (prints l (lcd_print s (mkLcd r0 r1 (String.length r1) 1))).
    unfold lcd_print. cbn [cursorRow cursorCol row0 row1].
    rewrite overwrite_end, IH; cbn [row0 row1 cursorRow cursorCol cat fold_right].
    + rewrite append_assoc. reflexivity.
    + reflexivity.
    + rewrite length_append. reflexivity.
Qed.

(** Clear, write line 1 piece by piece, then line 2 piece by piece. *)
Lemma two_lines (l0 l1 : list string) (d : Lcd) :
  prints l1 (lcd_setCursor 0 1 (prints l0 (lcd_setCursor 0 0 (lcd_clear d)))) =
  mkLcd (cat l0) (cat l1) (String.length (cat l1)) 1.
Proof.
  unfold lcd_clear, lcd_setCursor. cbn [row0 row1].
  rewrite (prints_row0 l0) by reflexivity. cbn [row0 row1].
  rewrite (prints_row1 l1) by reflexivity. reflexivity.
Qed.

Ltac run_display :=
  unfold exec, trace, seq, lcd_do, read, modify, lcd_print_int;
  cbn [fst snd lcd set_lcd trafficCountEW trafficCountNS app].

Lemma nsGreenDisplay_spec (b x r : Z) (s : Machine) :
  trace (nsGreenDisplay b x r) s = [] /\
  exec (nsGreenDisplay b x r) s =
  set_lcd (mkLcd (cat ["NSG "; dec b; "+"; dec x; "s"])
                 (cat ["T="; dec r; " EW="; dec (trafficCountEW s)])
                 (String.length
                    (cat ["T="; dec r; " EW="; dec (trafficCountEW s)])) 1) s.
Proof.
  rewrite <- (two_lines _ _ (lcd s)).
  unfold nsGreenDisplay. run_display. split; reflexivity.
Qed.

Lemma ewGreenDisplay_spec (b x r : Z) (s : Machine) :
  trace (ewGreenDisplay b x r) s = [] /\
  exec (ewGreenDisplay b x r) s =
  set_lcd (mkLcd (cat ["EWG "; dec b; "+"; dec x; "s"])
                 (cat ["T="; dec r; " NS="; dec (trafficCountNS s)])
                 (String.length
                    (cat ["T="; dec r; " NS="; dec (trafficCountNS s)])) 1) s.
Proof.
  rewrite <- (two_lines _ _ (lcd s)).
  unfold ewGreenDisplay. run_display. split; reflexivity.
Qed.

Lemma nsYellowDisplay_spec (r : Z) (s : Machine) :
  trace (nsYellowDisplay r) s = [] /\
  exec (nsYellowDisplay r) s =
  set_lcd (mkLcd (cat ["NSY T="; dec r; "s"])
                 (cat ["EW="; dec (trafficCountEW s)])
                 (String.length (cat ["EW="; dec (trafficCountEW s)])) 1) s.
Proof.
  rewrite <- (two_lines _ _ (lcd s)).
  unfold nsYellowDisplay. run_display. split; reflexivity.
Qed.

Lemma ewYellowDisplay_spec (r : Z) (s : Machine) :
  trace (ewYellowDisplay r) s = [] /\
  exec (ewYellowDisplay r) s =
  set_lcd (mkLcd (cat ["EWY T="; dec r; "s"])
                 (cat ["NS="; dec (trafficCountNS s)])
                 (String.length (cat ["NS="; dec (trafficCountNS s)])) 1) s.
Proof.
  rewrite <- (two_lines _ _ (lcd s)).
  unfold ewYellowDisplay. run_display. split; reflexivity.
Qed.

Lemma pedDisplay_spec (r : Z) (s : Machine) :
  trace (pedDisplay r) s = [] /\
  exec (pedDisplay r) s =
  set_lcd (mkLcd (cat ["PEDESTRIAN"])
                 (cat ["T="; dec r; " WALK"])
                 (String.length (cat ["T="; dec r; " WALK"])) 1) s.
Proof.
  rewrite <- (two_lines _ _ (lcd s)).
  unfold pedDisplay. run_display. split; reflexivity.
Qed.

Lemma schedule_nil_frames (t : Trace) : schedule t = [] -> Forall frame_ok t.
Proof.
  induction t as [|e t IH]; intros H; [constructor|].
  destruct e; cbn [schedule] in H; try discriminate;
    (constructor; [exact I | exact (IH H)]).
Qed.

(** A command that shows no countdown value keeps the phase and refreshes
    nothing. *)
Lemma quiet_frames (p : Phase) (c : Cmd) (k : nat) (d : Z) :
  (forall m, effect c [] k d m) ->
  hoare (fun s => currentPhase s = p) c frame_ok (fun s => currentPhase s = p).
Proof.
  intros H m Hm. destruct (H m) as [A _ B _ _ _ _ _ _].
  split; [apply schedule_nil_frames; exact B | congruence].
Qed.

(** One turn of a countdown loop: the display, its refresh event, then the
    rest of the second. *)
Lemma refresh_frames (p : Phase) (display rest : Cmd) (r : Z) :
  (forall s, trace display s = []) ->
  (forall s, currentPhase s = p ->
             currentPhase (exec display s) = p /\
             frame_ok (EvRefresh r (exec display s))) ->
  hoare (fun s => currentPhase s = p) rest frame_ok
        (fun s => currentPhase s = p) ->
  hoare (fun s => currentPhase s = p) (display ;; emit (EvRefresh r) ;; rest)
        frame_ok (fun s => currentPhase s = p).
Proof.
  intros Ht Hd Hr m Hm. destruct (Hd m Hm) as [Hp Hf].
  rewrite !trace_seq, !exec_seq, Ht.
  change (exec (emit (EvRefresh r)) (exec display m)) with (exec display m).
  change (trace (emit (EvRefresh r)) (exec display m))
    with [EvRefresh r (exec display m)].
  destruct (Hr (exec display m) Hp) as [T Q].
  split; [|exact Q].
  cbn [app]. constructor; assumption.
Qed.

Section Frames.

Variable env : nat -> Z -> bool.

Lemma frames_wait (p : Phase) :
  hoare (fun s => currentPhase s = p) (waitOneSecondWithButtons env) frame_ok
        (fun s => currentPhase s = p).
Proof.
  apply (quiet_frames p _ 50 1000). apply effect_waitOneSecondWithButtons.
Qed.

Lemma frames_nsGreenSecond (b x r : Z) :
  hoare (fun s => currentPhase s = PHASE_NS_GREEN)
        (nsGreenSecond env b x r) frame_ok
        (fun s => currentPhase s = PHASE_NS_GREEN).
Proof.
  unfold nsGreenSecond. apply refresh_frames.
  - intros s. apply nsGreenDisplay_spec.
  - intros s Hs. rewrite (proj2 (nsGreenDisplay_spec b x r s)).
    cbn [frame_ok currentPhase set_lcd lcd row0 row1 trafficCountEW cat
         fold_right].
    rewrite Hs, append_empty_r. split; reflexivity.
  - apply frames_wait.
Qed.

Lemma frames_ewGreenSecond (b x r : Z) :
  hoare (fun s => currentPhase s = PHASE_EW_GREEN)
        (ewGreenSecond env b x r) frame_ok
        (fun s => currentPhase s = PHASE_EW_GREEN).
Proof.
  unfold ewGreenSecond. apply refresh_frames.
  - intros s. apply ewGreenDisplay_spec.
  - intros s Hs. rewrite (proj2 (ewGreenDisplay_spec b x r s)).
    cbn [frame_ok currentPhase set_lcd lcd row0 row1 trafficCountNS cat
         fold_right].
    rewrite Hs, append_empty_r. split; reflexivity.
  - apply frames_wait.
Qed.

Lemma frames_nsYellowSecond (r : Z) :
  hoare (fun s => currentPhase s = PHASE_NS_YELLOW)
        (nsYellowSecond env r) frame_ok
        (fun s => currentPhase s = PHASE_NS_YELLOW).
Proof.
  unfold nsYellowSecond. apply refresh_frames.
  - intros s. apply nsYellowDisplay_spec.
  - intros s Hs. rewrite (proj2 (nsYellowDisplay_spec r s)).
    cbn [frame_ok currentPhase set_lcd lcd row0 row1 trafficCountEW cat
         fold_right].
    rewrite Hs, !append_empty_r. repeat split; reflexivity.
  - apply (quiet_frames _ _ 50 1000). intros m. eff.
Qed.

Lemma frames_ewYellowSecond (r : Z) :
  hoare (fun s => currentPhase s = PHASE_EW_YELLOW)
        (ewYellowSecond env r) frame_ok
        (fun s => currentPhase s = PHASE_EW_YELLOW).
Proof.
  unfold ewYellowSecond. apply refresh_frames.
  - intros s. apply ewYellowDisplay_spec.
  - intros s Hs. rewrite (proj2 (ewYellowDisplay_spec r s)).
    cbn [frame_ok currentPhase set_lcd lcd row0 row1 trafficCountNS cat
         fold_right].
    rewrite Hs, !append_empty_r. repeat split; reflexivity.
  - apply (quiet_frames _ _ 50 1000). intros m. eff.
Qed.

Lemma frames_pedSecond (r : Z) :
  hoare (fun s => currentPhase s = PHASE_PED_GREEN)
        (pedSecond env r) frame_ok
        (fun s => currentPhase s = PHASE_PED_GREEN).
Proof.
  unfold pedSecond. apply refresh_frames.
  - intros s. apply pedDisplay_spec.
  - intros s Hs. rewrite (proj2 (pedDisplay_spec r s)).
    cbn [frame_ok currentPhase set_lcd lcd row0 row1 cat fold_right].
    rewrite Hs, !append_empty_r. repeat split; reflexivity.
  - apply frames_wait.
Qed.

Lemma frames_enter (p : Phase) :
  hoare (fun _ => True) (assign_currentPhase p) frame_ok
        (fun s => currentPhase s = p).
Proof.
  intros m _. split; [|reflexivity].
  constructor; [exact I | constructor].
Qed.

Lemma frames_leave (p : Phase) (f : Machine -> Machine) :
  hoare (fun s => currentPhase s = p) (modify f) frame_ok (fun _ => True).
Proof. apply hoare_modify. auto. Qed.

Lemma frames_phaseNsGreen :
  hoare (fun _ => True) (phaseNsGreen env) frame_ok (fun _ => True).
Proof.
  unfold phaseNsGreen.
  eapply hoare_seq; [apply frames_enter|].
  apply hoare_read_any; intros totalSecs. cbv zeta.
  eapply hoare_seq; [apply (quiet_frames _ _ 0 0); intros m; eff|].
  eapply hoare_seq; [|apply frames_leave].
  apply (hoare_for_down _ (fun _ s => currentPhase s = PHASE_NS_GREEN)).
  intros k _. apply frames_nsGreenSecond.
Qed.

Lemma frames_phaseEwGreen :
  hoare (fun _ => True) (phaseEwGreen env) frame_ok (fun _ => True).
Proof.
  unfold phaseEwGreen.
  eapply hoare_seq; [apply frames_enter|].
  apply hoare_read_any; intros totalSecs. cbv zeta.
  eapply hoare_seq; [apply (quiet_frames _ _ 0 0); intros m; eff|].
  eapply hoare_seq; [|apply frames_leave].
  apply (hoare_for_down _ (fun _ s => currentPhase s = PHASE_EW_GREEN)).
  intros k _. apply frames_ewGreenSecond.
Qed.

Lemma frames_phaseNsYellow :
  hoare (fun _ => True) (phaseNsYellow env) frame_ok (fun _ => True).
Proof.
  unfold phaseNsYellow.
  eapply hoare_seq; [apply frames_enter|].
  eapply hoare_conseq; [| |apply (hoare_for_down _
      (fun _ s => currentPhase s = PHASE_NS_YELLOW))]; [auto | auto |].
  intros k _. apply frames_nsYellowSecond.
Qed.

Lemma frames_phaseEwYellow :
  hoare (fun _ => True) (phaseEwYellow env) frame_ok (fun _ => True).
Proof.
  unfold phaseEwYellow.
  eapply hoare_seq; [apply frames_enter|].
  eapply hoare_conseq; [| |apply (hoare_for_down _
      (fun _ s => currentPhase s = PHASE_EW_YELLOW))]; [auto | auto |].
  intros k _. apply frames_ewYellowSecond.
Qed.

Lemma frames_pedestrianPhase :
  hoare (fun _ => True) (pedestrianPhase env) frame_ok (fun _ => True).
Proof.
  unfold pedestrianPhase.
  eapply hoare_seq; [apply frames_enter|].
  eapply hoare_seq; [apply (quiet_frames _ _ 0 0); intros m; eff|].
  eapply hoare_seq.
  { apply (hoare_for_down _ (fun _ s => currentPhase s = PHASE_PED_GREEN)).
    intros k _. apply frames_pedSecond. }
  eapply hoare_seq; [apply (quiet_frames _ _ 0 0); intros m; eff|].
  eapply hoare_seq; [apply (quiet_frames _ _ 0 0); intros m; eff|].
  eapply hoare_seq; [apply (quiet_frames _ _ 0 0); intros m; eff|].
  eapply hoare_seq; [apply (quiet_frames _ _ 0 0); intros m; eff|].
  eapply hoare_seq; [apply (quiet_frames _ _ 0 500); intros m; eff|].
  apply frames_leave.
Qed.

Lemma frames_phasePedestrianIfRequested :
  hoare (fun _ => True) (phasePedestrianIfRequested env) frame_ok
        (fun _ => True).
Proof.
  unfold phasePedestrianIfRequested. apply hoare_ifte.
  - apply (hoare_conseq _ (fun _ => True) _ (fun _ => True));
      [auto | auto | apply hoare_skip].
  - apply (hoare_conseq _ (fun _ => True) _ (fun _ => True));
      [auto | auto | apply frames_pedestrianPhase].
Qed.

Lemma frames_loop : hoare (fun _ => True) (loop env) frame_ok (fun _ => True).
Proof.
  unfold loop, nsHalf, ewHalf.
  eapply hoare_seq;
    [eapply hoare_seq; [apply frames_phaseNsGreen|];
     eapply hoare_seq; [apply frames_phaseNsYellow|];
     apply frames_phasePedestrianIfRequested|].
  eapply hoare_seq; [apply frames_phaseEwGreen|].
  eapply hoare_seq; [apply frames_phaseEwYellow|].
  apply frames_phasePedestrianIfRequested.
Qed.

Lemma frames_sketch (n : nat) :
  hoare (fun _ => True) (sketch env n) frame_ok (fun _ => True).
Proof.
  unfold sketch. apply (hoare_seq _ _ (fun _ => True)).
  - intros m _. split; [|exact I].
    apply schedule_nil_frames. apply (setup_effect m).
  - apply hoare_repeat_n. apply frames_loop.
Qed.

End Frames.

(** C8, as the display is written.  At every per-second refresh of every
    run: in a green phase line 2 reads "T=<remaining> <OTHER>=<count>" with
    the other road's count as it is at that moment; in a yellow phase the
    seconds remaining are on line 1 ("NSY T=<remaining>s",
    "EWY T=<remaining>s") and line 2 reads "<OTHER>=<count>" alone; in the
    pedestrian phase line 1 reads "PEDESTRIAN" and line 2
    "T=<remaining> WALK". *)
Theorem refresh_shows_countdown_and_other_count
        (env : nat -> Z -> bool) (n : nat) :
  Forall frame_ok (trace (sketch env n) power_on).
Proof. exact (proj1 (frames_sketch env n power_on I)). Qed.

(** C8 as claimed fails in the yellow phases: with no button ever pressed,
    the first refresh of NS yellow (the 11th of the run) shows "EW=0" on
    line 2, not "T=3 EW=0". *)
Lemma line2_in_yellow_counterexample :
  nth_error (frames (trace (sketch idle 1) power_on)) 10 =
    Some (PHASE_NS_YELLOW, 3, "NSY T=3s", "EW=0") /\
  forallb line2_countdown_form (trace (sketch idle 1) power_on) = false.
Proof. split; vm_compute; reflexivity. Qed.

(** * The scenarios of the specification, run on the model *)

(** NS count 7 at NS green entry: 20 s of green shown as "NSG 10+10s", and
    the count is 0 afterwards. *)
Example scenario_ns_seven :
  hd_error (frames (trace (phaseNsGreen idle) seven_sixteen)) =
    Some (PHASE_NS_GREEN, 20, "NSG 10+10s", "T=20 EW=16") /\
  List.length (frames (trace (phaseNsGreen idle) seven_sixteen)) = 20%nat /\
  trafficCountNS (exec (phaseNsGreen idle) seven_sixteen) = 0 /\
  trafficCountEW (exec (phaseNsGreen idle) seven_sixteen) = 16.
Proof. repeat split; vm_compute; reflexivity. Qed.

(** EW count 16 at EW green entry: 40 s of green shown as "EWG 10+30s". *)
Example scenario_ew_sixteen :
  hd_error (frames (trace (phaseEwGreen idle) seven_sixteen)) =
    Some (PHASE_EW_GREEN, 40, "EWG 10+30s", "T=40 NS=7") /\
  List.length (frames (trace (phaseEwGreen idle) seven_sixteen)) = 40%nat /\
  trafficCountEW (exec (phaseEwGreen idle) seven_sixteen) = 0 /\
  trafficCountNS (exec (phaseEwGreen idle) seven_sixteen) = 7.
Proof. repeat split; vm_compute; reflexivity. Qed.

(** A pedestrian press in the second second of EW yellow: the pedestrian
    phase runs its 8 s after the yellow, the latch is clear afterwards, and
    NS green comes next. *)
Example scenario_press_in_yellow :
  schedule (trace (phaseEwYellow ped_press_at_560 ;;
                   phasePedestrianIfRequested ped_press_at_560)
              (exec (phaseEwGreen ped_press_at_560) ready)) =
    countdown PHASE_EW_YELLOW 3 ++ countdown PHASE_PED_GREEN 8 /\
  phases_of (trace (ewHalf ped_press_at_560 ;; phaseNsGreen ped_press_at_560)
               ready) =
    [PHASE_EW_GREEN; PHASE_EW_YELLOW; PHASE_PED_GREEN; PHASE_NS_GREEN] /\
  pedRequest (exec (ewHalf ped_press_at_560) ready) = false.
Proof. repeat split; vm_compute; reflexivity. Qed.

(** A press on the NS count button during NS green is seen and not counted;
    the same press during EW green is counted. *)
Example scenario_press_while_green :
  tally nsPress (trace (phaseNsGreen ns_press_at_100) ready) = 1 /\
  tally nsAccepted (trace (phaseNsGreen ns_press_at_100) ready) = 0 /\
  tally nsPress (trace (phaseEwGreen ns_press_at_100) ready) = 1 /\
  tally nsAccepted (trace (phaseEwGreen ns_press_at_100) ready) = 1 /\
  trafficCountNS (exec (phaseEwGreen ns_press_at_100) ready) = 1.
Proof. repeat split; vm_compute; reflexivity. Qed.

(** The lamps at the end of one idle [loop]: EW yellow and NS red are lit,
    both greens and the pedestrian green are dark. *)
Example lamps_after_one_loop :
  map (gpio (exec (sketch idle 1) power_on))
      [PIN_NS_RED; PIN_NS_YELLOW; PIN_NS_GREEN;
       PIN_EW_RED; PIN_EW_YELLOW; PIN_EW_GREEN;
       PIN_PED_RED; PIN_PED_GREEN] =
    [HIGH; LOW; LOW; LOW; HIGH; LOW; HIGH; LOW].
Proof. vm_compute. reflexivity. Qed.

(** * Further properties of the sketch *)

(** ** Commands that leave the phase and the lamps alone *)

Section Observed.

Variable env : nat -> Z -> bool.
Variable P : Machine -> Prop.
Variable E : Event -> Prop.
Hypothesis P_signals : on_signals P.
Hypothesis E_refresh : forall r m, P m -> E (EvRefresh r m).
Hypothesis E_poll : forall ns ew ped b a, P b -> P a -> E (EvPoll ns ew ped b a).

Lemma obs_lcd_do (f : Lcd -> Lcd) : hoare P (lcd_do f) E P.
Proof.
  apply hoare_modify. intros m Hm. eapply P_signals; [| |exact Hm]; reflexivity.
Qed.

Lemma obs_delay (ms : Z) : hoare P (delay ms) E P.
Proof.
  apply hoare_modify. intros m Hm. eapply P_signals; [| |exact Hm]; reflexivity.
Qed.

Lemma obs_update (f : Machine -> Machine) :
  (forall m, currentPhase (f m) = currentPhase m) ->
  (forall m, gpio (f m) = gpio m) ->
  hoare P (modify f) E P.
Proof.
  intros Hp Hg. apply hoare_modify. intros m Hm.
  eapply P_signals; [apply Hp | apply Hg | exact Hm].
Qed.

Lemma obs_lcdShowTwoLines (l1 l2 : string) :
  hoare P (lcdShowTwoLines l1 l2) E P.
Proof.
  unfold lcdShowTwoLines.
  repeat (eapply hoare_seq; [apply obs_lcd_do|]). apply obs_lcd_do.
Qed.

Lemma obs_refresh (r : Z) : hoare P (emit (EvRefresh r)) E P.
Proof. apply hoare_emit. intros m Hm. apply E_refresh. exact Hm. Qed.

Lemma obs_readButtons : hoare P (readButtons env) E P.
Proof.
  intros m Hm. rewrite readButtons_trace.
  destruct (readButtons_spec env m) as (Hp & Hg & _).
  assert (Hm' : P (exec (readButtons env) m))
    by (eapply P_signals; eassumption).
  split; [|exact Hm'].
  constructor; [apply E_poll; assumption | constructor].
Qed.

Lemma obs_waitOneSecondWithButtons :
  hoare P (waitOneSecondWithButtons env) E P.
Proof.
  apply hoare_repeat_n. eapply hoare_seq;
    [apply obs_readButtons | apply obs_delay].
Qed.

Lemma obs_display (c : Cmd) :
  (forall s, trace c s = [] /\ exists d, exec c s = set_lcd d s) ->
  hoare P c E P.
Proof.
  intros H m Hm. destruct (H m) as [Ht [d Hx]]. rewrite Ht, Hx.
  split; [constructor|]. eapply P_signals; [| |exact Hm]; reflexivity.
Qed.

End Observed.

Lemma nsGreenDisplay_only_lcd (b x r : Z) (s : Machine) :
  trace (nsGreenDisplay b x r) s = [] /\
  exists d, exec (nsGreenDisplay b x r) s = set_lcd d s.
Proof. destruct (nsGreenDisplay_spec b x r s) as [A B]. eauto. Qed.

Lemma ewGreenDisplay_only_lcd (b x r : Z) (s : Machine) :
  trace (ewGreenDisplay b x r) s = [] /\
  exists d, exec (ewGreenDisplay b x r) s = set_lcd d s.
Proof. destruct (ewGreenDisplay_spec b x r s) as [A B]. eauto. Qed.

Lemma nsYellowDisplay_only_lcd (r : Z) (s : Machine) :
  trace (nsYellowDisplay r) s = [] /\
  exists d, exec (nsYellowDisplay r) s = set_lcd d s.
Proof. destruct (nsYellowDisplay_spec r s) as [A B]. eauto. Qed.

Lemma ewYellowDisplay_only_lcd (r : Z) (s : Machine) :
  trace (ewYellowDisplay r) s = [] /\
  exists d, exec (ewYellowDisplay r) s = set_lcd d s.
Proof. destruct (ewYellowDisplay_spec r s) as [A B]. eauto. Qed.

Lemma pedDisplay_only_lcd (r : Z) (s : Machine) :
  trace (pedDisplay r) s = [] /\
  exists d, exec (pedDisplay r) s = set_lcd d s.
Proof. destruct (pedDisplay_spec r s) as [A B]. eauto. Qed.

(** ** The lamps of the two roads and of the crossing exclude each other *)

(** Every pin write of a signal change, for every state of the eight
    lamps. *)
Ltac lamp_cases m :=
  cbn;
  generalize (gpio m 2), (gpio m 4), (gpio m 5), (gpio m 18), (gpio m 19),
    (gpio m 21), (gpio m 22), (gpio m 23);
  intros r1 y1 g1 r2 y2 g2 r3 g3;
  destruct r1, y1, g1, r2, y2, g2, r3, g3; cbn;
  intros;
  repeat match goal with
         | H : _ /\ _ |- _ => destruct H
         end;
  first [ discriminate | congruence | reflexivity
        | repeat split; first [reflexivity | congruence] ].

Ltac all_lamps :=
  unfold hoare, trace, exec, setNsGreenState, setNsYellowState,
    setEwGreenState, setEwYellowState, setPedestrianGreenState,
    setAllVehicleRed, assign_currentPhase, digitalWrite, seq, modify, emit;
  unfold exclusive_calm, exclusive_now, exclusive, nsGo, ewGo, nsStop, ewStop,
    entering, showing, ped_stop, lamps, lamps_of, lamps_at_poll, ev_all,
    snapshots;
  unfold PIN_NS_RED, PIN_NS_YELLOW, PIN_NS_GREEN, PIN_EW_RED, PIN_EW_YELLOW,
    PIN_EW_GREEN, PIN_PED_RED, PIN_PED_GREEN, HIGH, LOW;
  intros m H; cbn [fst snd app];
  repeat match goal with
         | |- _ /\ _ => split
         | |- Forall _ (_ :: _) => constructor
         | |- Forall _ [] => constructor
         | |- True => exact I
         end;
  revert H; lamp_cases m.

Lemma exclusive_setAllVehicleRed :
  hoare exclusive_calm setAllVehicleRed (ev_all exclusive_now) exclusive_calm.
Proof. all_lamps. Qed.

Lemma exclusive_setNsGreenState :
  hoare exclusive_calm setNsGreenState (ev_all exclusive_now) exclusive_calm.
Proof. all_lamps. Qed.

Lemma exclusive_setNsYellowState :
  hoare exclusive_calm setNsYellowState (ev_all exclusive_now) exclusive_calm.
Proof. all_lamps. Qed.

Lemma exclusive_setEwGreenState :
  hoare exclusive_calm setEwGreenState (ev_all exclusive_now) exclusive_calm.
Proof. all_lamps. Qed.

Lemma exclusive_setEwYellowState :
  hoare exclusive_calm setEwYellowState (ev_all exclusive_now) exclusive_calm.
Proof. all_lamps. Qed.

Lemma exclusive_assign_currentPhase (p : Phase) :
  hoare exclusive_calm (assign_currentPhase p) (ev_all exclusive_now)
        exclusive_calm.
Proof. all_lamps. Qed.

Lemma exclusive_setPedestrianGreenState :
  hoare exclusive_calm setPedestrianGreenState (ev_all exclusive_now)
        exclusive_now.
Proof. all_lamps. Qed.

Lemma exclusive_pedestrian_end :
  hoare exclusive_now
        (setAllVehicleRed ;;
         digitalWrite PIN_PED_RED HIGH ;;
         digitalWrite PIN_PED_GREEN LOW)
        (ev_all exclusive_now) exclusive_calm.
Proof. all_lamps. Qed.

Lemma exclusive_setup_pins :
  hoare exclusive_calm
        (setAllVehicleRed ;;
         digitalWrite PIN_PED_RED HIGH ;;
         digitalWrite PIN_PED_GREEN LOW)
        (ev_all exclusive_now) exclusive_calm.
Proof. all_lamps. Qed.

Lemma on_signals_exclusive_calm : on_signals exclusive_calm.
Proof.
  intros m m' Hp Hg. unfold exclusive_calm, exclusive, nsGo, ewGo, nsStop, ewStop.
  rewrite Hg. auto.
Qed.

Lemma on_signals_exclusive_now : on_signals exclusive_now.
Proof.
  intros m m' Hp Hg. unfold exclusive_now, exclusive, nsGo, ewGo, nsStop, ewStop.
  rewrite Hg. auto.
Qed.

Lemma exclusive_calm_now (m : Machine) : exclusive_calm m -> exclusive_now m.
Proof. intros [H _]. exact H. Qed.

Lemma ev_all_refresh (P Q : Machine -> Prop) :
  (forall m, P m -> Q m) -> forall r m, P m -> ev_all Q (EvRefresh r m).
Proof. intros H r m Hm. constructor; [auto | constructor]. Qed.

Lemma ev_all_poll (P Q : Machine -> Prop) :
  (forall m, P m -> Q m) ->
  forall (ns ew ped : bool) b a, P b -> P a -> ev_all Q (EvPoll ns ew ped b a).
Proof.
  intros H ns ew ped b a Hb Ha.
  constructor; [auto | constructor; [auto | constructor]].
Qed.

(** Build the triple of a command from its parts; what is specific to the
    property at hand is taken from the context. *)
Ltac obs_build :=
  lazymatch goal with
  | |- hoare _ (_ ;; _) _ _ => eapply hoare_seq; [obs_build | obs_build]
  | |- hoare _ (lcd_do _) _ _ => apply obs_lcd_do; assumption
  | |- hoare _ (delay _) _ _ => apply obs_delay; assumption
  | |- hoare _ (lcdShowTwoLines _ _) _ _ =>
      apply obs_lcdShowTwoLines; assumption
  | |- hoare _ (emit (EvRefresh _)) _ _ => apply obs_refresh; assumption
  | |- hoare _ (waitOneSecondWithButtons _) _ _ =>
      apply obs_waitOneSecondWithButtons; assumption
  | |- hoare _ (nsGreenDisplay _ _ _) _ _ =>
      apply obs_display; [assumption | intro; apply nsGreenDisplay_only_lcd]
  | |- hoare _ (ewGreenDisplay _ _ _) _ _ =>
      apply obs_display; [assumption | intro; apply ewGreenDisplay_only_lcd]
  | |- hoare _ (nsYellowDisplay _) _ _ =>
      apply obs_display; [assumption | intro; apply nsYellowDisplay_only_lcd]
  | |- hoare _ (ewYellowDisplay _) _ _ =>
      apply obs_display; [assumption | intro; apply ewYellowDisplay_only_lcd]
  | |- hoare _ (pedDisplay _) _ _ =>
      apply obs_display; [assumption | intro; apply pedDisplay_only_lcd]
  | |- hoare _ (modify _) _ _ =>
      apply obs_update; [assumption | intro; reflexivity | intro; reflexivity]
  | |- hoare _ (read _ _) _ _ =>
      apply hoare_read_any; intro; cbv zeta; obs_build
  | |- hoare ?P (for_down _ _) _ _ =>
      apply (hoare_for_down _ (fun _ => P)); intros ? _;
      unfold nsGreenSecond, ewGreenSecond, nsYellowSecond, ewYellowSecond,
        pedSecond;
      obs_build
  | |- hoare _ (assign_currentPhase _) _ _ =>
      match goal with
      | H : forall p, hoare _ (assign_currentPhase p) _ _ |- _ => apply H
      end
  | |- hoare _ ?c _ _ =>
      match goal with
      | H : hoare _ c _ _ |- _ => apply H
      end
  end.

Section Exclusive.

Variable env : nat -> Z -> bool.

Ltac exclusive_facts :=
  pose proof on_signals_exclusive_calm;
  pose proof on_signals_exclusive_now;
  pose proof (ev_all_refresh _ _ exclusive_calm_now);
  pose proof (ev_all_poll _ _ exclusive_calm_now);
  pose proof (ev_all_refresh exclusive_now _ (fun m H => H));
  pose proof (ev_all_poll exclusive_now _ (fun m H => H));
  pose proof exclusive_setNsGreenState;
  pose proof exclusive_setNsYellowState;
  pose proof exclusive_setEwGreenState;
  pose proof exclusive_setEwYellowState;
  pose proof exclusive_setPedestrianGreenState;
  pose proof exclusive_assign_currentPhase.

Lemma exclusive_phaseNsGreen :
  hoare exclusive_calm (phaseNsGreen env) (ev_all exclusive_now) exclusive_calm.
Proof. exclusive_facts. unfold phaseNsGreen. obs_build. Qed.

Lemma exclusive_phaseNsYellow :
  hoare exclusive_calm (phaseNsYellow env) (ev_all exclusive_now) exclusive_calm.
Proof. exclusive_facts. unfold phaseNsYellow. obs_build. Qed.

Lemma exclusive_phaseEwGreen :
  hoare exclusive_calm (phaseEwGreen env) (ev_all exclusive_now) exclusive_calm.
Proof. exclusive_facts. unfold phaseEwGreen. obs_build. Qed.

Lemma exclusive_phaseEwYellow :
  hoare exclusive_calm (phaseEwYellow env) (ev_all exclusive_now) exclusive_calm.
Proof. exclusive_facts. unfold phaseEwYellow. obs_build. Qed.

Lemma exclusive_pedestrianPhase :
  hoare exclusive_calm (pedestrianPhase env) (ev_all exclusive_now)
        exclusive_calm.
Proof.
  exclusive_facts. unfold pedestrianPhase.
  eapply hoare_seq; [obs_build|].
  eapply hoare_seq; [obs_build|].
  eapply hoare_seq; [obs_build|].
  apply hoare_assoc3.
  eapply hoare_seq; [apply exclusive_pedestrian_end|].
  obs_build.
Qed.

Lemma exclusive_phasePedestrianIfRequested :
  hoare exclusive_calm (phasePedestrianIfRequested env) (ev_all exclusive_now)
        exclusive_calm.
Proof.
  unfold phasePedestrianIfRequested. apply hoare_ifte.
  - apply (hoare_conseq _ exclusive_calm _ exclusive_calm);
      [intros m [H _]; exact H | auto | apply hoare_skip].
  - apply (hoare_conseq _ exclusive_calm _ exclusive_calm);
      [intros m [H _]; exact H | auto | apply exclusive_pedestrianPhase].
Qed.

Lemma exclusive_loop :
  hoare exclusive_calm (loop env) (ev_all exclusive_now) exclusive_calm.
Proof.
  unfold loop, nsHalf, ewHalf.
  eapply hoare_seq;
    [eapply hoare_seq; [apply exclusive_phaseNsGreen|];
     eapply hoare_seq; [apply exclusive_phaseNsYellow|];
     apply exclusive_phasePedestrianIfRequested|].
  eapply hoare_seq; [apply exclusive_phaseEwGreen|].
  eapply hoare_seq; [apply exclusive_phaseEwYellow|].
  apply exclusive_phasePedestrianIfRequested.
Qed.

Lemma exclusive_setup :
  hoare exclusive_calm setup (ev_all exclusive_now) exclusive_calm.
Proof.
  exclusive_facts. unfold setup, pinMode.
  eapply hoare_seq; [obs_build|].
  eapply hoare_seq; [obs_build|].
  do 11 (eapply hoare_seq; [apply hoare_skip|]).
  apply hoare_assoc3.
  eapply hoare_seq; [apply exclusive_setup_pins|].
  obs_build.
Qed.

Lemma exclusive_sketch (n : nat) :
  hoare exclusive_calm (sketch env n) (ev_all exclusive_now) exclusive_calm.
Proof.
  unfold sketch. eapply hoare_seq; [apply exclusive_setup|].
  apply hoare_repeat_n. apply exclusive_loop.
Qed.

End Exclusive.

(** X1.  In every run, after every pin write, phase change, refresh and
    poll: while NS shows green or yellow, EW shows red and neither yellow
    nor green and the pedestrian green is dark; the same with the roads
    exchanged; and while the pedestrian green is lit both roads show red
    and neither yellow nor green. *)
Theorem lamps_exclude_each_other (env : nat -> Z -> bool) (n : nat) :
  Forall (ev_all (fun m => exclusive m = true)) (trace (sketch env n) power_on).
Proof.
  assert (H : exclusive_calm power_on) by (split; reflexivity).
  exact (proj1 (exclusive_sketch env n power_on H)).
Qed.

(** ** At every poll the lamps are those of the phase *)

Ltac phase_lamps :=
  unfold hoare, trace, exec, setNsGreenState, setNsYellowState,
    setEwGreenState, setEwYellowState, setPedestrianGreenState,
    setAllVehicleRed, assign_currentPhase, digitalWrite, seq, modify, emit;
  unfold entering, showing, ped_stop, lamps, lamps_of, lamps_at_poll;
  unfold PIN_NS_RED, PIN_NS_YELLOW, PIN_NS_GREEN, PIN_EW_RED, PIN_EW_YELLOW,
    PIN_EW_GREEN, PIN_PED_RED, PIN_PED_GREEN, HIGH, LOW;
  intros m H; cbn;
  repeat match goal with
         | H : _ /\ _ |- _ => destruct H
         end;
  repeat match goal with
         | |- _ /\ _ => split
         | |- Forall _ (_ :: _) => constructor
         | |- Forall _ [] => constructor
         | |- True => exact I
         end;
  first [ assumption | reflexivity | congruence ].

Lemma lamps_assign_currentPhase (p : Phase) :
  hoare ped_stop (assign_currentPhase p) lamps_at_poll (entering p).
Proof. phase_lamps. Qed.

Lemma lamps_setNsGreenState :
  hoare (entering PHASE_NS_GREEN) setNsGreenState lamps_at_poll
        (showing PHASE_NS_GREEN).
Proof. phase_lamps. Qed.

Lemma lamps_setNsYellowState :
  hoare (entering PHASE_NS_YELLOW) setNsYellowState lamps_at_poll
        (showing PHASE_NS_YELLOW).
Proof. phase_lamps. Qed.

Lemma lamps_setEwGreenState :
  hoare (entering PHASE_EW_GREEN) setEwGreenState lamps_at_poll
        (showing PHASE_EW_GREEN).
Proof. phase_lamps. Qed.

Lemma lamps_setEwYellowState :
  hoare (entering PHASE_EW_YELLOW) setEwYellowState lamps_at_poll
        (showing PHASE_EW_YELLOW).
Proof. phase_lamps. Qed.

Lemma lamps_setPedestrianGreenState :
  hoare (entering PHASE_PED_GREEN) setPedestrianGreenState lamps_at_poll
        (showing PHASE_PED_GREEN).
Proof. phase_lamps. Qed.

Lemma lamps_pedestrian_end (P : Machine -> Prop) :
  hoare P
        (setAllVehicleRed ;;
         digitalWrite PIN_PED_RED HIGH ;;
         digitalWrite PIN_PED_GREEN LOW)
        lamps_at_poll ped_stop.
Proof. phase_lamps. Qed.

Lemma on_signals_ped_stop : on_signals ped_stop.
Proof. intros m m' Hp Hg. unfold ped_stop. rewrite Hg. auto. Qed.

Lemma on_signals_entering (p : Phase) : on_signals (entering p).
Proof. intros m m' Hp Hg. unfold entering, ped_stop. rewrite Hg, Hp. auto. Qed.

Lemma on_signals_showing (p : Phase) : on_signals (showing p).
Proof. intros m m' Hp Hg. unfold showing, lamps. rewrite Hg, Hp. auto. Qed.

Lemma showing_entering (p : Phase) (m : Machine) :
  p <> PHASE_PED_GREEN -> showing p m -> entering p m.
Proof.
  unfold showing, entering, ped_stop, lamps. intros Hn [Hp Hl].
  split; [exact Hp|].
  destruct p; try congruence; cbn in Hl; unfold HIGH, LOW in Hl;
    inversion Hl; split; reflexivity.
Qed.

Lemma lamps_at_refresh (P : Machine -> Prop) (r : Z) (m : Machine) :
  P m -> lamps_at_poll (EvRefresh r m).
Proof. intros _. exact I. Qed.

Lemma lamps_showing_poll (p : Phase) (ns ew ped : bool) (b a : Machine) :
  showing p b -> showing p a -> lamps_at_poll (EvPoll ns ew ped b a).
Proof. intros [Hp Hl] _. cbn. rewrite Hp. exact Hl. Qed.

Section LampsAtPolls.

Variable env : nat -> Z -> bool.

Ltac lamp_facts p :=
  pose proof on_signals_ped_stop;
  pose proof (on_signals_entering p);
  pose proof (on_signals_showing p);
  pose proof (lamps_at_refresh ped_stop);
  pose proof (lamps_at_refresh (entering p));
  pose proof (lamps_at_refresh (showing p));
  pose proof (lamps_showing_poll p);
  pose proof lamps_assign_currentPhase;
  pose proof lamps_setNsGreenState;
  pose proof lamps_setNsYellowState;
  pose proof lamps_setEwGreenState;
  pose proof lamps_setEwYellowState;
  pose proof lamps_setPedestrianGreenState.

Lemma lamps_phaseNsGreen :
  hoare ped_stop (phaseNsGreen env) lamps_at_poll ped_stop.
Proof.
  lamp_facts PHASE_NS_GREEN.
  apply (hoare_conseq _ ped_stop _ (showing PHASE_NS_GREEN));
    [auto | intros m Hm; apply showing_entering in Hm; [exact (proj2 Hm) | discriminate] |].
  unfold phaseNsGreen. obs_build.
Qed.

Lemma lamps_phaseEwGreen :
  hoare ped_stop (phaseEwGreen env) lamps_at_poll ped_stop.
Proof.
  lamp_facts PHASE_EW_GREEN.
  apply (hoare_conseq _ ped_stop _ (showing PHASE_EW_GREEN));
    [auto | intros m Hm; apply showing_entering in Hm; [exact (proj2 Hm) | discriminate] |].
  unfold phaseEwGreen. obs_build.
Qed.

Lemma lamps_nsYellowSecond (r : Z) :
  hoare (entering PHASE_NS_YELLOW) (nsYellowSecond env r) lamps_at_poll
        (entering PHASE_NS_YELLOW).
Proof.
  lamp_facts PHASE_NS_YELLOW.
  apply (hoare_conseq _ (entering PHASE_NS_YELLOW) _ (showing PHASE_NS_YELLOW));
    [auto | intros m Hm; apply showing_entering; [discriminate | exact Hm] |].
  unfold nsYellowSecond. obs_build.
Qed.

Lemma lamps_ewYellowSecond (r : Z) :
  hoare (entering PHASE_EW_YELLOW) (ewYellowSecond env r) lamps_at_poll
        (entering PHASE_EW_YELLOW).
Proof.
  lamp_facts PHASE_EW_YELLOW.
  apply (hoare_conseq _ (entering PHASE_EW_YELLOW) _ (showing PHASE_EW_YELLOW));
    [auto | intros m Hm; apply showing_entering; [discriminate | exact Hm] |].
  unfold ewYellowSecond. obs_build.
Qed.

Lemma lamps_phaseNsYellow :
  hoare ped_stop (phaseNsYellow env) lamps_at_poll ped_stop.
Proof.
  unfold phaseNsYellow.
  eapply hoare_seq; [apply lamps_assign_currentPhase|].
  apply (hoare_conseq _ (entering PHASE_NS_YELLOW) _ (entering PHASE_NS_YELLOW));
    [auto | intros m [_ H]; exact H |].
  apply (hoare_for_down _ (fun _ => entering PHASE_NS_YELLOW)).
  intros k _. apply lamps_nsYellowSecond.
Qed.

Lemma lamps_phaseEwYellow :
  hoare ped_stop (phaseEwYellow env) lamps_at_poll ped_stop.
Proof.
  unfold phaseEwYellow.
  eapply hoare_seq; [apply lamps_assign_currentPhase|].
  apply (hoare_conseq _ (entering PHASE_EW_YELLOW) _ (entering PHASE_EW_YELLOW));
    [auto | intros m [_ H]; exact H |].
  apply (hoare_for_down _ (fun _ => entering PHASE_EW_YELLOW)).
  intros k _. apply lamps_ewYellowSecond.
Qed.

Lemma lamps_pedestrianPhase :
  hoare ped_stop (pedestrianPhase env) lamps_at_poll ped_stop.
Proof.
  lamp_facts PHASE_PED_GREEN. unfold pedestrianPhase.
  eapply hoare_seq; [obs_build|].
  eapply hoare_seq; [obs_build|].
  eapply hoare_seq; [obs_build|].
  apply hoare_assoc3.
  eapply hoare_seq; [apply lamps_pedestrian_end|].
  obs_build.
Qed.

Lemma lamps_phasePedestrianIfRequested :
  hoare ped_stop (phasePedestrianIfRequested env) lamps_at_poll ped_stop.
Proof.
  unfold phasePedestrianIfRequested. apply hoare_ifte.
  - apply (hoare_conseq _ ped_stop _ ped_stop);
      [intros m [H _]; exact H | auto | apply hoare_skip].
  - apply (hoare_conseq _ ped_stop _ ped_stop);
      [intros m [H _]; exact H | auto | apply lamps_pedestrianPhase].
Qed.

Lemma lamps_loop : hoare ped_stop (loop env) lamps_at_poll ped_stop.
Proof.
  unfold loop, nsHalf, ewHalf.
  eapply hoare_seq;
    [eapply hoare_seq; [apply lamps_phaseNsGreen|];
     eapply hoare_seq; [apply lamps_phaseNsYellow|];
     apply lamps_phasePedestrianIfRequested|].
  eapply hoare_seq; [apply lamps_phaseEwGreen|].
  eapply hoare_seq; [apply lamps_phaseEwYellow|].
  apply lamps_phasePedestrianIfRequested.
Qed.

Lemma lamps_setup : hoare (fun _ => True) setup lamps_at_poll ped_stop.
Proof.
  pose proof on_signals_ped_stop.
  assert (T : on_signals (fun _ : Machine => True)) by (intros ? ? ? ? ?; exact I).
  unfold setup, pinMode.
  eapply hoare_seq; [obs_build|].
  eapply hoare_seq; [obs_build|].
  do 11 (eapply hoare_seq; [apply hoare_skip|]).
  apply hoare_assoc3.
  eapply hoare_seq; [apply lamps_pedestrian_end|].
  obs_build.
Qed.

Lemma lamps_sketch (n : nat) :
  hoare (fun _ => True) (sketch env n) lamps_at_poll ped_stop.
Proof.
  unfold sketch. eapply hoare_seq; [apply lamps_setup|].
  apply hoare_repeat_n. apply lamps_loop.
Qed.

End LampsAtPolls.

(** X2.  In every run, whenever the buttons are polled the eight lamps are
    exactly those of the current phase: the road with green or yellow
    shows that colour alone, the other road red alone, and the pedestrian
    lamps red, or, in the pedestrian phase, both roads red and the
    pedestrian lamp green. *)
Theorem lamps_match_phase_at_every_poll (env : nat -> Z -> bool) (n : nat) :
  Forall lamps_at_poll (trace (sketch env n) power_on).
Proof. exact (proj1 (lamps_sketch env n power_on I)). Qed.

(** ** Red is lit before green is put out *)

(** X3.  [setAllVehicleRed] writes each road's red before it clears that
    road's yellow and green: entered with NS green lit, its first write
    leaves NS red and NS green lit together, and entered with EW green lit
    its fourth write leaves EW red and EW green lit together.  Whatever
    the lamps were, it ends with both reds lit and both yellows and greens
    dark, and it does not touch the pedestrian lamps. *)
Theorem setAllVehicleRed_red_first (m : Machine) :
  (gpio m PIN_NS_GREEN = true ->
   exists s, nth_error (trace setAllVehicleRed m) 0 =
               Some (EvWrite PIN_NS_RED HIGH s) /\
             gpio s PIN_NS_RED = true /\ gpio s PIN_NS_GREEN = true) /\
  (gpio m PIN_EW_GREEN = true ->
   exists s, nth_error (trace setAllVehicleRed m) 3 =
               Some (EvWrite PIN_EW_RED HIGH s) /\
             gpio s PIN_EW_RED = true /\ gpio s PIN_EW_GREEN = true) /\
  lamps (exec setAllVehicleRed m) =
    [HIGH; LOW; LOW; HIGH; LOW; LOW;
     gpio m PIN_PED_RED; gpio m PIN_PED_GREEN].
Proof.
  split; [|split].
  - intros H. eexists. split; [reflexivity|]. cbn. split; [reflexivity|exact H].
  - intros H. eexists. split; [reflexivity|]. cbn. split; [reflexivity|exact H].
  - reflexivity.
Qed.

Lemma setAllVehicleRed_red_first_witness :
  (exists s, nth_error (trace setAllVehicleRed (exec setNsGreenState power_on)) 0
             = Some (EvWrite PIN_NS_RED HIGH s) /\
             gpio s PIN_NS_RED = true /\ gpio s PIN_NS_GREEN = true) /\
  (exists s, nth_error (trace setAllVehicleRed (exec setEwGreenState power_on)) 3
             = Some (EvWrite PIN_EW_RED HIGH s) /\
             gpio s PIN_EW_RED = true /\ gpio s PIN_EW_GREEN = true).
Proof.
  split.
  - apply (setAllVehicleRed_red_first (exec setNsGreenState power_on)).
    reflexivity.
  - apply (setAllVehicleRed_red_first (exec setEwGreenState power_on)).
    reflexivity.
Defined.

(** ** What [lcdShowTwoLines] and [setup] leave behind *)

Lemma lcdShowTwoLines_exec (line1 line2 : string) (m : Machine) :
  trace (lcdShowTwoLines line1 line2) m = [] /\
  exec (lcdShowTwoLines line1 line2) m =
  set_lcd (mkLcd line1 line2 (String.length line2) 1) m.
Proof.
  assert (H := two_lines [line1] [line2] (lcd m)).
  cbn [cat fold_right] in H. rewrite !append_empty_r in H.
  rewrite <- H. unfold lcdShowTwoLines. run_display. split; reflexivity.
Qed.

Lemma substring_all (n : nat) (s : string) :
  (String.length s <= n)%nat -> substring 0 n s = s.
Proof.
  revert n. induction s as [|c s IH]; intros [|n] H; cbn in *;
    [reflexivity | reflexivity | lia | rewrite IH by lia; reflexivity].
Qed.

(** X4.  For two texts of at most 16 characters, the width of the
    display: whatever the display showed and wherever its cursor was,
    [lcdShowTwoLines l1 l2] leaves exactly [l1] on line 1 and [l2] on
    line 2, all of both within the 16 columns shown, with the cursor after
    [l2]; it changes nothing else and no pin. *)
Theorem lcdShowTwoLines_shows (line1 line2 : string) (m : Machine) :
  (String.length line1 <= LCD_COLS)%nat ->
  (String.length line2 <= LCD_COLS)%nat ->
  row0 (lcd (exec (lcdShowTwoLines line1 line2) m)) = line1 /\
  row1 (lcd (exec (lcdShowTwoLines line1 line2) m)) = line2 /\
  visible (lcd (exec (lcdShowTwoLines line1 line2) m)) = (line1, line2) /\
  cursorRow (lcd (exec (lcdShowTwoLines line1 line2) m)) = 1%nat /\
  cursorCol (lcd (exec (lcdShowTwoLines line1 line2) m)) =
    String.length line2 /\
  exec (lcdShowTwoLines line1 line2) m =
    set_lcd (lcd (exec (lcdShowTwoLines line1 line2) m)) m /\
  trace (lcdShowTwoLines line1 line2) m = [].
Proof.
  intros H1 H2.
  destruct (lcdShowTwoLines_exec line1 line2 m) as [Ht Hx].
  rewrite Hx, Ht. unfold visible. cbn [lcd set_lcd row0 row1].
  rewrite (substring_all _ _ H1), (substring_all _ _ H2).
  repeat split; reflexivity.
Qed.

Lemma lcdShowTwoLines_shows_witness :
  (String.length "Pedestrian Req" <= LCD_COLS)%nat /\
  (String.length "Stored" <= LCD_COLS)%nat /\
  visible (lcd (exec (lcdShowTwoLines "Pedestrian Req" "Stored") power_on)) =
    ("Pedestrian Req", "Stored").
Proof.
  assert (H1 : (String.length "Pedestrian Req" <= LCD_COLS)%nat)
    by (unfold LCD_COLS; cbn; lia).
  assert (H2 : (String.length "Stored" <= LCD_COLS)%nat)
    by (unfold LCD_COLS; cbn; lia).
  split; [exact H1 | split; [exact H2 |]].
  apply (lcdShowTwoLines_shows "Pedestrian Req" "Stored" power_on H1 H2).
Defined.

(** X5.  From any state, [setup] ends with both roads and the crossing on
    red alone, the display reading "Traffic System" / "Ready", 2000 ms
    spent, and the phase, the counts, the request latch and the button
    memories as they were; it polls no button. *)
Theorem setup_all_red (m : Machine) :
  lamps (exec setup m) = [HIGH; LOW; LOW; HIGH; LOW; LOW; HIGH; LOW] /\
  (row0 (lcd (exec setup m)) = "Traffic System" /\
   row1 (lcd (exec setup m)) = "Ready") /\
  elapsedMs (exec setup m) = elapsedMs m + 2000 /\
  polls (exec setup m) = polls m /\
  currentPhase (exec setup m) = currentPhase m /\
  trafficCountNS (exec setup m) = trafficCountNS m /\
  trafficCountEW (exec setup m) = trafficCountEW m /\
  pedRequest (exec setup m) = pedRequest m /\
  (lastNsBtnState (exec setup m) = lastNsBtnState m /\
   lastEwBtnState (exec setup m) = lastEwBtnState m /\
   lastPedBtnState (exec setup m) = lastPedBtnState m).
Proof.
  unfold setup, pinMode. rewrite !exec_seq.
  rewrite (proj2 (lcdShowTwoLines_exec "Traffic System" "Ready" _)).
  rewrite (proj2 (lcdShowTwoLines_exec "Traffic System" "Starting..." _)).
  unfold exec, delay, digitalWrite, seq, modify, emit, skip.
  cbn [fst snd]. unfold lamps. cbn.
  repeat split; lia.
Qed.

(** ** How often a button can be counted *)

Section PressRate.

Variable env : nat -> Z -> bool.

Lemma poll_step_trace (m : Machine) :
  trace (readButtons env ;; delay 20) m =
  [EvPoll (env (polls m) PIN_BTN_NS_TRAFFIC) (env (polls m) PIN_BTN_EW_TRAFFIC)
          (env (polls m) PIN_BTN_PED_REQUEST) m (exec (readButtons env) m)].
Proof. rewrite trace_seq, readButtons_trace. reflexivity. Qed.

Lemma poll_step_exec (m : Machine) :
  lastNsBtnState (exec (readButtons env ;; delay 20) m) =
    env (polls m) PIN_BTN_NS_TRAFFIC /\
  lastEwBtnState (exec (readButtons env ;; delay 20) m) =
    env (polls m) PIN_BTN_EW_TRAFFIC /\
  lastPedBtnState (exec (readButtons env ;; delay 20) m) =
    env (polls m) PIN_BTN_PED_REQUEST /\
  polls (exec (readButtons env ;; delay 20) m) = S (polls m).
Proof.
  rewrite exec_seq.
  destruct (readButtons_spec env m) as (_ & _ & K & _ & _ & _ & A & B & C & _).
  generalize dependent (exec (readButtons env) m). intros s K A B C.
  repeat split; assumption.
Qed.

(** A press edge needs a released poll before it, so [n] polls hold at
    most [(n + 1) / 2] press edges of a button, one fewer when the button
    was already down. *)
Lemma press_edges_alternate (n : nat) (m : Machine) :
  2 * tally nsPress (trace (repeat_n n (readButtons env ;; delay 20)) m)
    <= Z.of_nat n + Z.b2z (lastNsBtnState m) /\
  2 * tally ewPress (trace (repeat_n n (readButtons env ;; delay 20)) m)
    <= Z.of_nat n + Z.b2z (lastEwBtnState m) /\
  2 * tally pedPress (trace (repeat_n n (readButtons env ;; delay 20)) m)
    <= Z.of_nat n + Z.b2z (lastPedBtnState m).
Proof.
  revert m. induction n as [|n IH]; intros m.
  - cbn [repeat_n]. change (trace skip m) with (@nil Event). cbn [tally].
    destruct (lastNsBtnState m), (lastEwBtnState m), (lastPedBtnState m);
      cbn; lia.
  - cbn [repeat_n]. rewrite trace_seq, poll_step_trace.
    destruct (poll_step_exec m) as (A & B & C & _).
    destruct (IH (exec (readButtons env ;; delay 20) m)) as (I1 & I2 & I3).
    rewrite A in I1. rewrite B in I2. rewrite C in I3.
    cbn [app tally nsPress ewPress pedPress]. unfold just_pressed, LOW, HIGH.
    rewrite Nat2Z.inj_succ.
    destruct (env (polls m) PIN_BTN_NS_TRAFFIC),
      (env (polls m) PIN_BTN_EW_TRAFFIC), (env (polls m) PIN_BTN_PED_REQUEST),
      (lastNsBtnState m), (lastEwBtnState m), (lastPedBtnState m);
      cbn [Bool.eqb andb Z.b2z] in *; lia.
Qed.

Lemma press_edges_tick (m : Machine) :
  2 * tally nsPress (trace (waitOneSecondWithButtons env) m)
    <= 50 + Z.b2z (lastNsBtnState m) /\
  2 * tally ewPress (trace (waitOneSecondWithButtons env) m)
    <= 50 + Z.b2z (lastEwBtnState m) /\
  2 * tally pedPress (trace (waitOneSecondWithButtons env) m)
    <= 50 + Z.b2z (lastPedBtnState m).
Proof. exact (press_edges_alternate 50 m). Qed.

End PressRate.

(** X6.  In one tick each button gives at most 25 press edges, however it
    bounces: a press edge needs a released poll before it.  With 30 ms of
    debounce for each press edge, a tick lasts at least 1000 ms and at most
    1000 + 30 * 75 = 3250 ms. *)
Theorem tick_press_rate (env : nat -> Z -> bool) (m : Machine) :
  tally nsPress (trace (waitOneSecondWithButtons env) m) <= 25 /\
  tally ewPress (trace (waitOneSecondWithButtons env) m) <= 25 /\
  tally pedPress (trace (waitOneSecondWithButtons env) m) <= 25 /\
  elapsedMs m + 1000 <= elapsedMs (exec (waitOneSecondWithButtons env) m)
    <= elapsedMs m + 3250.
Proof.
  destruct (press_edges_tick env m) as (A & B & C).
  pose proof (eff_time _ _ _ _ _ (effect_waitOneSecondWithButtons env m)) as T.
  pose proof (tally_bounds nsPress (trace (waitOneSecondWithButtons env) m)) as H1.
  pose proof (tally_bounds ewPress (trace (waitOneSecondWithButtons env) m)) as H2.
  pose proof (tally_bounds pedPress (trace (waitOneSecondWithButtons env) m)) as H3.
  revert A B C T H1 H2 H3.
  generalize (trace (waitOneSecondWithButtons env) m) as t.
  generalize (exec (waitOneSecondWithButtons env) m) as s.
  intros s t A B C T H1 H2 H3. unfold pressesIn in T.
  assert (Z.b2z (lastNsBtnState m) <= 1) by (destruct (lastNsBtnState m); cbn; lia).
  assert (Z.b2z (lastEwBtnState m) <= 1) by (destruct (lastEwBtnState m); cbn; lia).
  assert (Z.b2z (lastPedBtnState m) <= 1) by (destruct (lastPedBtnState m); cbn; lia).
  lia.
Qed.

(** ** How long a [loop] takes *)

Section LoopLength.

Variable env : nat -> Z -> bool.

Lemma phaseNsGreen_polls (m : Machine) :
  Z.of_nat (polls m) + 500 <= Z.of_nat (polls (exec (phaseNsGreen env) m))
    <= Z.of_nat (polls m) + 2000.
Proof.
  destruct (phaseNsGreen_summary env m) as ([_ _ _ K _ _ _] & _).
  rewrite K, Nat2Z.inj_add, Nat2Z.inj_mul.
  destruct (computeNsGreenSeconds_range m) as [H|[H|[H|H]]]; rewrite H;
    rewrite Z2Nat.id by lia; lia.
Qed.

Lemma phaseEwGreen_polls (m : Machine) :
  Z.of_nat (polls m) + 500 <= Z.of_nat (polls (exec (phaseEwGreen env) m))
    <= Z.of_nat (polls m) + 2000.
Proof.
  destruct (phaseEwGreen_summary env m) as ([_ _ _ K _ _ _] & _).
  rewrite K, Nat2Z.inj_add, Nat2Z.inj_mul.
  destruct (computeEwGreenSeconds_range m) as [H|[H|[H|H]]]; rewrite H;
    rewrite Z2Nat.id by lia; lia.
Qed.

Lemma phasePedestrianIfRequested_polls (m : Machine) :
  Z.of_nat (polls m)
    <= Z.of_nat (polls (exec (phasePedestrianIfRequested env) m))
    <= Z.of_nat (polls m) + 400.
Proof.
  destruct (phasePedestrianIfRequested_summary env m) as (_ & _ & _ & K).
  rewrite K. destruct (pedRequest m); lia.
Qed.

End LoopLength.

(** X7.  From any state and whatever is pressed, one pass of [loop] takes
    at least 1300 and at most 5100 button polls (26 to 102 ticks): two
    greens of 10 to 40 ticks, two yellows of 3 and at most two pedestrian
    phases of 8. *)
Theorem loop_length (env : nat -> Z -> bool) (m : Machine) :
  Z.of_nat (polls m) + 1300 <= Z.of_nat (polls (exec (loop env) m))
    <= Z.of_nat (polls m) + 5100.
Proof.
  rewrite loop_exec.
  pose proof (phaseNsGreen_polls env m) as A.
  revert A. generalize (exec (phaseNsGreen env) m) as m1. intros m1 A.
  pose proof (ent_polls _ _ _ _ _ _ (proj1 (phaseNsYellow_summary env m1))) as B.
  revert B. generalize (exec (phaseNsYellow env) m1) as m2. intros m2 B.
  pose proof (phasePedestrianIfRequested_polls env m2) as C.
  revert C. generalize (exec (phasePedestrianIfRequested env) m2) as m3.
  intros m3 C.
  pose proof (phaseEwGreen_polls env m3) as D.
  revert D. generalize (exec (phaseEwGreen env) m3) as m4. intros m4 D.
  pose proof (ent_polls _ _ _ _ _ _ (proj1 (phaseEwYellow_summary env m4))) as F.
  revert F. generalize (exec (phaseEwYellow env) m4) as m5. intros m5 F.
  pose proof (phasePedestrianIfRequested_polls env m5) as G.
  revert G. generalize (exec (phasePedestrianIfRequested env) m5) as m6.
  intros m6 G.
  lia.
Qed.

(** ** The buttons cannot move the signals *)

(** X9.  Whatever the buttons do during a tick, the phase and every
    output pin are after the tick what they were before it. *)
Theorem tick_keeps_signals (env : nat -> Z -> bool) (m : Machine) :
  currentPhase (exec (waitOneSecondWithButtons env) m) = currentPhase m /\
  gpio (exec (waitOneSecondWithButtons env) m) = gpio m.
Proof.
  assert (S : on_signals (fun s => currentPhase s = currentPhase m /\
                                   gpio s = gpio m))
    by (intros a b Hp Hg [A B]; split; congruence).
  destruct (obs_waitOneSecondWithButtons env _ (fun _ => True) S
              (fun _ _ _ _ _ _ _ => I) m (conj eq_refl eq_refl)) as [_ H].
  exact H.
Qed.

(** ** The message a poll leaves on the display *)

Section Messages.

Variable env : nat -> Z -> bool.

Ltac run_message :=
  unfold exec, read, when, ifte, seq, modify, skip, delay, lcdShowTwoLines,
    lcd_do, lcd_print_int, digitalRead;
  cbn [fst snd polls lastNsBtnState lastEwBtnState lastPedBtnState
       currentPhase trafficCountNS trafficCountEW pedRequest elapsedMs gpio
       lcd set_trafficCountNS set_trafficCountEW set_pedRequest set_lcd
       set_elapsedMs set_lastNsBtnState set_lastEwBtnState
       set_lastPedBtnState].

Ltac shows l0 l1 m :=
  let H := fresh in
  assert (H := two_lines l0 l1 (lcd m));
  cbn [cat fold_right] in H; rewrite !append_empty_r in H;
  exact H.

Lemma readNsButton_lcd (m : Machine) :
  lcd (exec (readNsButton env) m) =
  if nsEdge env m then
    if isNsRed m then
      mkLcd "NS RED: Count" ("NS=" ++ dec (int_add (trafficCountNS m) 1))
        (String.length ("NS=" ++ dec (int_add (trafficCountNS m) 1))) 1
    else mkLcd "NS not RED" "No count" 8 1
  else lcd m.
Proof.
  unfold nsEdge, readNsButton. run_message.
  destruct (just_pressed _ _); [destruct (isNsRed m)|]; run_message.
  - shows ["NS RED: Count"] ["NS="; dec (int_add (trafficCountNS m) 1)] m.
  - shows ["NS not RED"] ["No count"] m.
  - reflexivity.
Qed.

Lemma readEwButton_lcd (m : Machine) :
  lcd (exec (readEwButton env) m) =
  if ewEdge env m then
    if isEwRed m then
      mkLcd "EW RED: Count" ("EW=" ++ dec (int_add (trafficCountEW m) 1))
        (String.length ("EW=" ++ dec (int_add (trafficCountEW m) 1))) 1
    else mkLcd "EW not RED" "No count" 8 1
  else lcd m.
Proof.
  unfold ewEdge, readEwButton. run_message.
  destruct (just_pressed _ _); [destruct (isEwRed m)|]; run_message.
  - shows ["EW RED: Count"] ["EW="; dec (int_add (trafficCountEW m) 1)] m.
  - shows ["EW not RED"] ["No count"] m.
  - reflexivity.
Qed.

Lemma readPedButton_lcd (m : Machine) :
  lcd (exec (readPedButton env) m) =
  if pedEdge env m then mkLcd "Pedestrian Req" "Stored" 6 1 else lcd m.
Proof.
  unfold pedEdge, readPedButton. run_message.
  destruct (just_pressed _ _); run_message.
  - shows ["Pedestrian Req"] ["Stored"] m.
  - reflexivity.
Qed.

End Messages.

(** X8.  What the display reads after one call of [readButtons]: the
    message of the last button, in the order NS, EW, pedestrian, that gave
    a press edge in this call, a later message replacing an earlier one
    entirely; the count messages show the count after the increment; with
    no press edge the display is left as it was. *)
Theorem readButtons_message (env : nat -> Z -> bool) (m : Machine) :
  shown (lcd (exec (readButtons env) m)) =
  if pedEdge env m then ("Pedestrian Req", "Stored")
  else if ewEdge env m then
    if isEwRed m
    then ("EW RED: Count", ("EW=" ++ dec (int_add (trafficCountEW m) 1))%string)
    else ("EW not RED", "No count")
  else if nsEdge env m then
    if isNsRed m
    then ("NS RED: Count", ("NS=" ++ dec (int_add (trafficCountNS m) 1))%string)
    else ("NS not RED", "No count")
  else shown (lcd m).
Proof.
  change (exec (readButtons env) m) with
    (let m' := exec (readNsButton env ;; readEwButton env ;; readPedButton env) m
     in set_polls (S (polls m')) m').
  cbv zeta. cbn [set_polls lcd]. rewrite !exec_seq.
  pose proof (readNsButton_spec env m) as N. cbv zeta in N.
  pose proof (readNsButton_lcd env m) as NL.
  revert N NL. generalize (exec (readNsButton env) m) as m1. intros m1 N NL.
  pose proof (readEwButton_spec env m1) as W. cbv zeta in W.
  pose proof (readEwButton_lcd env m1) as WL.
  revert W WL. generalize (exec (readEwButton env) m1) as m2. intros m2 W WL.
  pose proof (readPedButton_lcd env m2) as DL.
  revert DL. generalize (exec (readPedButton env) m2) as m3. intros m3 DL.
  destruct N as (N1 & N2 & N3 & N4 & N5 & N6 & N7 & N8 & N9 & N10).
  destruct W as (W1 & W2 & W3 & W4 & W5 & W6 & W7 & W8 & W9 & W10).
  assert (Hw : ewEdge env m1 = ewEdge env m)
    by (unfold ewEdge; rewrite N3, N8; reflexivity).
  assert (Hd : pedEdge env m2 = pedEdge env m)
    by (unfold pedEdge; rewrite W3, W9, N3, N9; reflexivity).
  assert (Hr : isEwRed m1 = isEwRed m)
    by (unfold isEwRed; rewrite N1; reflexivity).
  rewrite DL, Hd, WL, Hw, Hr, N6, NL.
  destruct (pedEdge env m), (ewEdge env m), (isEwRed m), (nsEdge env m),
    (isNsRed m); reflexivity.
Qed.

(** * From the request to the pedestrian phase *)













(** ** Every event of a phase function is in its phase *)















Section Segments.

Variable env : nat -> Z -> bool.






End Segments.

(** ** A green and its yellow *)



(** ** One [loop] *)




(** The pedestrian button pressed in the first NS green: one pedestrian
    phase, after NS yellow and before EW green. *)
Example scenario_request_in_ns_green :
  phases_of (trace (loop one_press) ready) =
    [PHASE_NS_GREEN; PHASE_NS_YELLOW; PHASE_PED_GREEN;
     PHASE_EW_GREEN; PHASE_EW_YELLOW] /\
  served_next pedPress (trace (loop one_press) ready) = true.
Proof. split; vm_compute; reflexivity. Qed.
